(** * The lite web-chat view: session bootstrap and cross-frame control channel

    A shallow embedding of [modules/channel-web/src/views/lite/main.tsx]
    (the [Web] React component) and the properties its specification
    states about it.

    The component is glue code: what it does is call its collaborators
    (the socket, the store actions, the host module loader, the parent
    frame) in some order, depending on JavaScript values it receives.
    The embedding therefore has three layers:

    - [JS]: the JavaScript values the component inspects (truthiness,
      strict equality with a string literal, property reads,
      [Object.assign], [Object.keys]);
    - [Eff]: the calls made to collaborators, recorded as a trace, with
      uncaught exceptions, and a resumption type for the two [async]
      functions;
    - [Section Web]: the methods of the component, one definition per
      method, over the two built-ins it calls and the two constants
      it imports.

    [Ref] holds reference versions of the built-ins and [Sample]
    concrete inputs; the last part of the file runs the component on
    them.  The properties are numbered C1 to C10 as in the list of
    claims drawn from the specification. *)

From Stdlib Require Import String Ascii List ZArith NArith Bool Lia.
From Stdlib Require Import DecimalString DecimalNat Sorted.
Import ListNotations.
Open Scope string_scope.
Open Scope list_scope.

(* ================================================================== *)
(** ** JavaScript values *)
(* ================================================================== *)

Set Warnings "-register-all".

Module JS.

(** Values that reach the component: parsed JSON (query string) and
    structured-clone data (postMessage, socket events).

    - A number [VNum m e] stands for the double nearest to [m * 10^e],
      zero being written with [m = 0]; the component never computes
      with numbers, it only tests them for truthiness.
    - A string is the UTF-8 of its text (a lone surrogate on three
      bytes); [chars] gives its UTF-16 code units.
    - The property list of an object holds its own enumerable
      properties in the order [Object.keys] enumerates them: array
      indices first, ascending, then the other keys in the order of
      their creation.
    - [VObj] is an object whose prototype is [Object.prototype], as
      JSON and the structured clone make them.  [VInherit proto props]
      is an object whose prototype was replaced by [proto], which is
      [VNull] or an object: what [Object.assign] makes of its target
      when a source has a property named [__proto__]. *)
Inductive value : Type :=
| VUndefined
| VNull
| VBool (b : bool)
| VNum (m e : Z)
| VStr (s : string)
| VArr (items : list value)
| VObj (props : list (string * value))
| VInherit (proto : value) (props : list (string * value)).

Definition object := list (string * value).

Inductive error : Type := TypeError | SyntaxError | URIError.

(** A computation that returns or throws. *)
Inductive result (A : Type) : Type :=
| Ok (a : A)
| Throw (e : error).
Arguments Ok {A} a.
Arguments Throw {A} e.

(** [ToBoolean]: what [x && ...], [x || ...] and [!x] test. *)
Definition truthy (v : value) : bool :=
  match v with
  | VUndefined | VNull => false
  | VBool b => b
  | VNum m _ => negb (m =? 0)%Z
  | VStr s => negb (s =? "")
  | VArr _ | VObj _ | VInherit _ _ => true
  end.

(** [v === 'lit'] for a string literal. *)
Definition is_str (v : value) (lit : string) : bool :=
  match v with
  | VStr s => s =? lit
  | _ => false
  end.

Definition nullish (v : value) : bool :=
  match v with
  | VUndefined | VNull => true
  | _ => false
  end.

Definition is_object (v : value) : bool :=
  match v with
  | VArr _ | VObj _ | VInherit _ _ => true
  | _ => false
  end.

Definition string_of_nat (n : nat) : string :=
  NilEmpty.string_of_uint (Nat.to_uint n).

Fixpoint index_from (i : nat) (items : list value) : object :=
  match items with
  | [] => []
  | v :: rest => (string_of_nat i, v) :: index_from (S i) rest
  end.

(** A UTF-16 code unit from U+0800 up, on three bytes. *)
Definition three_bytes (cu : N) : string :=
  String (ascii_of_N (224 + cu / 4096))
    (String (ascii_of_N (128 + (cu / 64) mod 64))
       (String (ascii_of_N (128 + cu mod 64)) EmptyString)).

(** The code point of a four-byte sequence. *)
Definition code_point (c1 c2 c3 c4 : ascii) : N :=
  (N_of_ascii c1 mod 8) * 262144 + (N_of_ascii c2 mod 64) * 4096
  + (N_of_ascii c3 mod 64) * 64 + N_of_ascii c4 mod 64.

(** The UTF-16 code units of a string, each as a string of its own:
    what indexing a JavaScript string gives.  A character outside the
    basic plane (four bytes) is two units, a high and a low
    surrogate. *)
Fixpoint chars (s : string) : list value :=
  match s with
  | EmptyString => []
  | String c1 r1 =>
      let b := N_of_ascii c1 in
      if (b <? 192)%N then VStr (String c1 EmptyString) :: chars r1
      else if (b <? 224)%N then
        match r1 with
        | String c2 r2 => VStr (String c1 (String c2 EmptyString)) :: chars r2
        | EmptyString => [VStr (String c1 EmptyString)]
        end
      else if (b <? 240)%N then
        match r1 with
        | String c2 (String c3 r3) =>
            VStr (String c1 (String c2 (String c3 EmptyString))) :: chars r3
        | _ => VStr (String c1 EmptyString) :: chars r1
        end
      else
        match r1 with
        | String c2 (String c3 (String c4 r4)) =>
            let cp := (code_point c1 c2 c3 c4 - 65536)%N in
            VStr (three_bytes (55296 + cp / 1024))
              :: VStr (three_bytes (56320 + cp mod 1024))
              :: chars r4
        | _ => VStr (String c1 EmptyString) :: chars r1
        end
  end.

(** Own enumerable string-keyed properties, in [Object.keys] order.
    Arrays and strings expose their indices; the other primitives
    have none. *)
Definition own_props (v : value) : object :=
  match v with
  | VObj props => props
  | VInherit _ props => props
  | VArr items => index_from 0 items
  | VStr s => index_from 0 (chars s)
  | _ => []
  end.

Fixpoint lookup (k : string) (o : object) : option value :=
  match o with
  | [] => None
  | (k', v) :: rest => if k' =? k then Some v else lookup k rest
  end.

Definition has_own (k : string) (o : object) : bool :=
  match lookup k o with
  | Some _ => true
  | None => false
  end.

Definition len (n : nat) : value := VNum (Z.of_nat n) 0.

Definition own_or_undefined (k : string) (o : object) : value :=
  match lookup k o with
  | Some x => x
  | None => VUndefined
  end.

(** [v.k] on a value that is neither [undefined] nor [null].  The
    keys the component reads ([action], [payload], [type], [text],
    [config], [userId], [overrides], [module], [message_type]) are
    not defined on the built-in prototypes, so a read is a lookup
    among the own properties ([length] of arrays and strings apart)
    and then, for an object whose prototype was replaced, in that
    prototype. *)
Fixpoint get (v : value) (k : string) {struct v} : value :=
  match v with
  | VArr items =>
      if k =? "length" then len (List.length items)
      else own_or_undefined k (index_from 0 items)
  | VStr s =>
      if k =? "length" then len (List.length (chars s))
      else own_or_undefined k (index_from 0 (chars s))
  | VObj props => own_or_undefined k props
  | VInherit proto props =>
      match lookup k props with
      | Some x => x
      | None => get proto k
      end
  | _ => VUndefined
  end.

(** The array index a key stands for, if it is one: a canonical
    decimal below 2^32 - 1. *)
Definition index_of (k : string) : option N :=
  match NilEmpty.uint_of_string k with
  | Some d =>
      let n := N.of_uint d in
      if (NilEmpty.string_of_uint (N.to_uint n) =? k) && (n <? 4294967295)%N
      then Some n
      else None
  | None => None
  end.

(** Whether a key is enumerated before another: an array index before
    a greater one and before every key that is no index. *)
Definition precedes (k k' : string) : bool :=
  match index_of k, index_of k' with
  | Some i, Some j => (i <? j)%N
  | Some _, None => true
  | None, _ => false
  end.

(** The value of an existing property is replaced where it is. *)
Fixpoint replace (k : string) (v : value) (o : object) : object :=
  match o with
  | [] => []
  | (k', v') :: rest =>
      if k' =? k then (k, v) :: rest else (k', v') :: replace k v rest
  end.

(** A new property goes where [Object.keys] will show it: an array
    index among the indices, any other key last. *)
Fixpoint insert (k : string) (v : value) (o : object) : object :=
  match o with
  | [] => [(k, v)]
  | (k', v') :: rest =>
      if precedes k k' then (k, v) :: o else (k', v') :: insert k v rest
  end.

(** Defining or updating an own data property. *)
Definition set (k : string) (v : value) (o : object) : object :=
  if has_own k o then replace k v o else insert k v o.

(** Whether a write to [__proto__] that finds no own property of that
    name on the receiver ends at the setter of [Object.prototype],
    walking up from the prototype [proto]: it does unless an object on
    the way has a data property of that name, or the chain ends in
    [null]. *)
Fixpoint reaches_setter (proto : value) : bool :=
  match proto with
  | VNull => false
  | VObj props => negb (has_own "__proto__" props)
  | VInherit p props => negb (has_own "__proto__" props) && reaches_setter p
  | _ => true
  end.

(** The setter of [Object.prototype.__proto__]: an object or [null]
    becomes the prototype of the receiver, anything else is ignored. *)
Definition set_prototype (v : value) (target : value) : value :=
  match v with
  | VNull | VArr _ | VObj _ | VInherit _ _ => VInherit v (own_props target)
  | _ => target
  end.

(** [target[k] = v] as [Object.assign] does it, for a target that is
    an object: an ordinary write defines or updates an own property;
    a write to [__proto__] that finds no own property goes to the
    setter inherited from [Object.prototype], when the prototype chain
    of the target still leads there. *)
Definition put (k : string) (v : value) (target : value) : value :=
  match target with
  | VObj o =>
      if (k =? "__proto__") && negb (has_own k o)
      then set_prototype v target
      else VObj (set k v o)
  | VInherit p o =>
      if (k =? "__proto__") && negb (has_own k o) && reaches_setter p
      then set_prototype v target
      else VInherit p (set k v o)
  | _ => target
  end.

(** One source of [Object.assign]: [undefined] and [null] are
    skipped, any other source has its own properties written to the
    target in order. *)
Definition assign1 (target : value) (source : value) : value :=
  fold_left (fun t kv => put (fst kv) (snd kv) t) (own_props source) target.

(** [Object.assign(target, ...sources)]. *)
Definition Object_assign (target : value) (sources : list value) : value :=
  fold_left assign1 sources target.

(** [Object.keys(v)]; throws on [undefined] and [null]. *)
Definition Object_keys (v : value) : result (list string) :=
  if nullish v then Throw TypeError else Ok (map fst (own_props v)).

(** [v.k] in general: reading a property of [undefined] or [null]
    throws, and so does destructuring them. *)
Definition get_member (v : value) (k : string) : result value :=
  if nullish v then Throw TypeError else Ok (get v k).

End JS.
Import JS.

(* ================================================================== *)
(** ** Effects: calls to collaborators, exceptions, suspensions *)
(* ================================================================== *)

Module Eff.

(** The three fields [setupObserver] watches. *)
Inductive watched : Type :=
| ConfigUserId          (* observe(this.props.config, 'userId', ...) *)
| ConfigOverrides       (* observe(this.props.config, 'overrides', ...) *)
| DimensionsContainer.  (* observe(this.props.dimensions, 'container', ...) *)

(** Every call the component makes to something it does not own. *)
Inductive call : Type :=
| AddMessageListener                      (* window.addEventListener('message', ...) *)
| RemoveMessageListener                   (* window.removeEventListener('message', ...) *)
| NewBpSocket                             (* new BpSocket(this.props.bp) *)
| SetOnMessage                            (* socket.onMessage = this.handleNewMessage *)
| SetOnTyping                             (* socket.onTyping = this.props.updateTyping *)
| SetOnUserIdChanged                      (* socket.onUserIdChanged = this.props.setUserId *)
| SocketSetup                             (* socket.setup() *)
| SocketChangeUserId (id : value)         (* socket.changeUserId(id) *)
| SocketWaitForUserId                     (* socket.waitForUserId() *)
| UpdateConfig (config : value) (bp : bool) (* props.updateConfig(config[, props.bp]) *)
| InitializeChat                          (* props.initializeChat() *)
| LoadModuleView (module : value) (force : bool) (* props.bp.loadModuleView(m, force) *)
| Observe (field : watched)               (* mobx observe(...) *)
| SetLoadingCompleted                     (* props.setLoadingCompleted() *)
| ShowChat
| HideChat
| SendMessage (text : value)
| SendData (data : value)
| AddEventToConversation (event : value)
| IncrementUnread
| ResetUnread
| AudioPlay (src : string)                (* new Audio(src).play() *)
| SetTimeout (delay : N)                  (* setTimeout(() => setState({played: false}), delay) *)
| PostMessage (message : value) (targetOrigin : string). (* window.parent.postMessage *)

(** Synchronous code: the calls made so far, and how it ended. *)
Definition M (A : Type) : Type := list call * result A.

Definition ret {A} (a : A) : M A := ([], Ok a).

Definition bind {A B} (m : M A) (f : A -> M B) : M B :=
  match m with
  | (t, Ok a) => let (t', r) := f a in (t ++ t', r)
  | (t, Throw e) => (t, Throw e)
  end.

Definition perform (c : call) : M unit := ([c], Ok tt).

Definition throw {A} (e : error) : M A := ([], Throw e).

Definition lift {A} (r : result A) : M A := ([], r).

Definition calls {A} (m : M A) : list call := fst m.

Definition outcome {A} (m : M A) : result A := snd m.

(** An [async] function: synchronous calls, [await]ed calls, and an
    end that is a return or an uncaught exception. *)
Inductive proc : Type :=
| Done
| Do (c : call) (k : proc)
| Await (c : call) (k : proc)
| Raise (e : error).

(** Runs synchronous code, then continues with its value. *)
Definition sync {A} (m : M A) (k : A -> proc) : proc :=
  match m with
  | (t, Ok a) => fold_right Do (k a) t
  | (t, Throw e) => fold_right Do (Raise e) t
  end.

(** What an observer of the component sees. *)
Inductive event : Type :=
| Called (c : call)
| Resumed (c : call)     (* the promise of an awaited call was fulfilled *)
| Rejected (c : call)    (* it was rejected: the function ends there *)
| Uncaught (e : error).

(** How the promise of an awaited call settles. *)
Inductive settle : Type := Fulfil | Reject.

(** The events of a run.  [settles] tells how the awaited promises
    settle, in order; when it runs out the function stays suspended at
    its current [await], possibly for ever. *)
Fixpoint run (p : proc) (settles : list settle) : list event :=
  match p with
  | Done => []
  | Do c k => Called c :: run k settles
  | Await c k =>
      Called c ::
      match settles with
      | Fulfil :: rest => Resumed c :: run k rest
      | Reject :: _ => [Rejected c]
      | [] => []
      end
  | Raise e => [Uncaught e]
  end.

End Eff.
Import Eff.

Declare Scope eff_scope.
Delimit Scope eff_scope with eff.
Notation "x <- m ;; k" := (bind m (fun x => k))
  (at level 100, m at next level, right associativity) : eff_scope.
Notation "m ;; k" := (bind m (fun _ => k))
  (at level 100, right associativity) : eff_scope.
Open Scope eff_scope.

(* ================================================================== *)
(** ** Reference built-ins *)
(* ================================================================== *)

(** The component calls two built-ins of the platform,
    [decodeURIComponent] and [JSON.parse].  The component is verified
    for any pair of functions in their place (see [Section Web]); the
    two below follow ECMAScript on byte strings and serve to run the
    component on concrete query strings. *)
Module Ref.

Definition dquote : ascii := ascii_of_nat 34.

Definition hex_digit (c : ascii) : option N :=
  let n := N_of_ascii c in
  (if (48 <=? n) && (n <=? 57) then Some (n - 48)
   else if (65 <=? n) && (n <=? 70) then Some (n - 55)
   else if (97 <=? n) && (n <=? 102) then Some (n - 87)
   else None)%N.

(** *** decodeURIComponent *)

Inductive piece : Type :=
| Lit (c : ascii)    (* a character standing for itself *)
| Oct (b : N).       (* an escaped octet, %XX *)

Fixpoint pieces (s : string) : option (list piece) :=
  match s with
  | EmptyString => Some []
  | String c rest =>
      if (c =? "%")%char then
        match rest with
        | String h (String l rest') =>
            match hex_digit h, hex_digit l with
            | Some a, Some b => option_map (cons (Oct (16 * a + b)%N)) (pieces rest')
            | _, _ => None
            end
        | _ => None
        end
      else option_map (cons (Lit c)) (pieces rest)
  end.

Definition continuation (b : N) : bool := ((128 <=? b) && (b <? 192))%N.

Definition low6 (b : N) : N := (b mod 64)%N.

(** The escaped octets must spell well-formed UTF-8: no stray
    continuation octet, no overlong form, no surrogate, nothing above
    U+10FFFF. *)
Fixpoint octets (ps : list piece) : option (list ascii) :=
  match ps with
  | [] => Some []
  | Lit c :: rest => option_map (cons c) (octets rest)
  | Oct b :: rest =>
      if b <? 128 then option_map (cons (ascii_of_N b)) (octets rest)
      else if (192 <=? b) && (b <? 224) then
        match rest with
        | Oct b2 :: rest2 =>
            let cp := (b mod 32) * 64 + low6 b2 in
            if continuation b2 && (128 <=? cp)
            then option_map (fun t => ascii_of_N b :: ascii_of_N b2 :: t) (octets rest2)
            else None
        | _ => None
        end
      else if (224 <=? b) && (b <? 240) then
        match rest with
        | Oct b2 :: Oct b3 :: rest3 =>
            let cp := (b mod 16) * 4096 + low6 b2 * 64 + low6 b3 in
            if continuation b2 && continuation b3 && (2048 <=? cp)
               && negb ((55296 <=? cp) && (cp <=? 57343))
            then option_map
                   (fun t => ascii_of_N b :: ascii_of_N b2 :: ascii_of_N b3 :: t)
                   (octets rest3)
            else None
        | _ => None
        end
      else if (240 <=? b) && (b <? 248) then
        match rest with
        | Oct b2 :: Oct b3 :: Oct b4 :: rest4 =>
            let cp := (b mod 8) * 262144 + low6 b2 * 4096 + low6 b3 * 64 + low6 b4 in
            if continuation b2 && continuation b3 && continuation b4
               && (65536 <=? cp) && (cp <=? 1114111)
            then option_map
                   (fun t => ascii_of_N b :: ascii_of_N b2 :: ascii_of_N b3
                             :: ascii_of_N b4 :: t)
                   (octets rest4)
            else None
        | _ => None
        end
      else None
  end%N.

Definition decodeURIComponent (s : string) : result string :=
  match pieces s with
  | Some ps =>
      match octets ps with
      | Some bs => Ok (string_of_list_ascii bs)
      | None => Throw URIError
      end
  | None => Throw URIError
  end.

(** *** JSON.parse *)

Definition is_ws (c : ascii) : bool :=
  let n := N_of_ascii c in
  ((n =? 32) || (n =? 9) || (n =? 10) || (n =? 13))%N.

Fixpoint skip_ws (s : string) : string :=
  match s with
  | EmptyString => EmptyString
  | String c rest => if is_ws c then skip_ws rest else s
  end.

(** [strip p s]: [s] without its prefix [p]. *)
Fixpoint strip (p s : string) : option string :=
  match p with
  | EmptyString => Some s
  | String a p' =>
      match s with
      | String b s' => if (a =? b)%char then strip p' s' else None
      | EmptyString => None
      end
  end.

Definition unescape (c : ascii) : option ascii :=
  let n := N_of_ascii c in
  if (n =? 34)%N then Some dquote
  else if (c =? "\")%char then Some c
  else if (c =? "/")%char then Some c
  else if (c =? "b")%char then Some (ascii_of_nat 8)
  else if (c =? "f")%char then Some (ascii_of_nat 12)
  else if (c =? "n")%char then Some (ascii_of_nat 10)
  else if (c =? "r")%char then Some (ascii_of_nat 13)
  else if (c =? "t")%char then Some (ascii_of_nat 9)
  else None.

(** UTF-8 of one UTF-16 code unit (a surrogate that has no partner
    is encoded on its own, on three bytes). *)
Definition utf8 (cu : N) : string :=
  (if cu <? 128 then String (ascii_of_N cu) EmptyString
   else if cu <? 2048 then
     String (ascii_of_N (192 + cu / 64))
       (String (ascii_of_N (128 + cu mod 64)) EmptyString)
   else three_bytes cu)%N.

Definition is_high (cu : N) : bool := ((55296 <=? cu) && (cu <? 56320))%N.

Definition is_low (cu : N) : bool := ((56320 <=? cu) && (cu <? 57344))%N.

(** UTF-8 of the character a surrogate pair stands for. *)
Definition utf8_pair (hi lo : N) : string :=
  (let cp := 65536 + (hi - 55296) * 1024 + (lo - 56320) in
   String (ascii_of_N (240 + cp / 262144))
     (String (ascii_of_N (128 + (cp / 4096) mod 64))
        (String (ascii_of_N (128 + (cp / 64) mod 64))
           (String (ascii_of_N (128 + cp mod 64)) EmptyString))))%N.

Definition hex4 (a b c d : ascii) : option N :=
  match hex_digit a, hex_digit b, hex_digit c, hex_digit d with
  | Some x, Some y, Some z, Some w => Some (((x * 16 + y) * 16 + z) * 16 + w)%N
  | _, _, _, _ => None
  end.

Definition prepend (p : string) (r : option (string * string)) : option (string * string) :=
  match r with
  | Some (body, rest) => Some (String.append p body, rest)
  | None => None
  end.

(** The characters of a string literal after its opening quote, and
    what follows the closing quote. *)
Fixpoint str_body (s : string) : option (string * string) :=
  match s with
  | EmptyString => None
  | String c r =>
      if (c =? dquote)%char then Some (EmptyString, r)
      else if (c =? "\")%char then
        match r with
        | String e r' =>
            if (e =? "u")%char then
              match r' with
              | String h1 (String h2 (String h3 (String h4 r''))) =>
                  match hex4 h1 h2 h3 h4 with
                  | Some cu =>
                      match r'' with
                      | String b (String u (String g1 (String g2 (String g3
                          (String g4 r3))))) =>
                          match (if ((b =? "\") && (u =? "u"))%char && is_high cu
                                 then hex4 g1 g2 g3 g4 else None) with
                          | Some lo =>
                              if is_low lo
                              then prepend (utf8_pair cu lo) (str_body r3)
                              else prepend (utf8 cu) (str_body r'')
                          | None => prepend (utf8 cu) (str_body r'')
                          end
                      | _ => prepend (utf8 cu) (str_body r'')
                      end
                  | None => None
                  end
              | _ => None
              end
            else
              match unescape e with
              | Some ch => prepend (String ch EmptyString) (str_body r')
              | None => None
              end
        | EmptyString => None
        end
      else if (N_of_ascii c <? 32)%N then None
      else prepend (String c EmptyString) (str_body r)
  end.

Definition digit (c : ascii) : option Z :=
  let n := N_of_ascii c in
  if ((48 <=? n) && (n <=? 57))%N then Some (Z.of_N n - 48)%Z else None.

Fixpoint digits (s : string) : list Z * string :=
  match s with
  | EmptyString => ([], EmptyString)
  | String c r =>
      match digit c with
      | Some d => let (ds, rest) := digits r in (d :: ds, rest)
      | None => ([], s)
      end
  end.

Definition decimal (ds : list Z) : Z :=
  fold_left (fun acc d => 10 * acc + d)%Z ds 0%Z.

(** Whether [m * 10^e] is so small that the nearest double is zero:
    at most 2^-1075, half the least positive double. *)
Definition rounds_to_zero (m e : Z) : bool :=
  ((m =? 0) || ((e <? 0) && (Z.abs m * 2 ^ 1075 <=? 10 ^ (- e))))%Z.

(** -? int frac? exp?  with no leading zero, as the JSON grammar has it. *)
Definition parse_number (s : string) : option (value * string) :=
  let (neg, s1) :=
    match s with
    | String "-"%char r => (true, r)
    | _ => (false, s)
    end in
  let (int, s2) := digits s1 in
  match int with
  | [] => None
  | 0%Z :: _ :: _ => None
  | _ =>
      let fraction :=
        match s2 with
        | String "."%char r =>
            let (fr, s3) := digits r in
            match fr with [] => None | _ => Some (fr, s3) end
        | _ => Some ([], s2)
        end in
      match fraction with
      | None => None
      | Some (fr, s3) =>
          let exponent :=
            match s3 with
            | String c r =>
                if ((c =? "e") || (c =? "E"))%char then
                  let (eneg, r1) :=
                    match r with
                    | String "-"%char r' => (true, r')
                    | String "+"%char r' => (false, r')
                    | _ => (false, r)
                    end in
                  let (ex, s4) := digits r1 in
                  match ex with
                  | [] => None
                  | _ => Some ((if eneg then - decimal ex else decimal ex)%Z, s4)
                  end
                else Some (0%Z, s3)
            | EmptyString => Some (0%Z, s3)
            end in
          match exponent with
          | None => None
          | Some (ex, s4) =>
              let m := decimal (int ++ fr) in
              let e := (ex - Z.of_nat (length fr))%Z in
              if rounds_to_zero m e then Some (VNum 0 0, s4)
              else Some (VNum (if neg then - m else m)%Z e, s4)
          end
      end
  end.

Definition literal (word : string) (v : value) (s : string) : option (value * string) :=
  option_map (fun rest => (v, rest)) (strip word s).

(** Recursive descent.  Every call consumes a character or hands over
    to a call that does, so fuel proportional to the length of the
    text is enough. *)
Fixpoint parse_value (fuel : nat) (s : string) {struct fuel} : option (value * string) :=
  match fuel with
  | O => None
  | S fuel' =>
      match skip_ws s with
      | EmptyString => None
      | String c r =>
          if (c =? "{")%char then
            match skip_ws r with
            | String "}"%char r' => Some (VObj [], r')
            | _ => parse_members fuel' r []
            end
          else if (c =? "[")%char then
            match skip_ws r with
            | String "]"%char r' => Some (VArr [], r')
            | _ => parse_elements fuel' r []
            end
          else if (c =? dquote)%char then
            option_map (fun br => (VStr (fst br), snd br)) (str_body r)
          else if (c =? "t")%char then literal "rue" (VBool true) r
          else if (c =? "f")%char then literal "alse" (VBool false) r
          else if (c =? "n")%char then literal "ull" VNull r
          else parse_number (String c r)
      end
  end
with parse_members (fuel : nat) (s : string) (acc : object) {struct fuel}
  : option (value * string) :=
  match fuel with
  | O => None
  | S fuel' =>
      match skip_ws s with
      | String c r =>
          if (c =? dquote)%char then
            match str_body r with
            | Some (k, r1) =>
                match skip_ws r1 with
                | String ":"%char r2 =>
                    match parse_value fuel' r2 with
                    | Some (v, r3) =>
                        match skip_ws r3 with
                        | String ","%char r4 => parse_members fuel' r4 (set k v acc)
                        | String "}"%char r4 => Some (VObj (set k v acc), r4)
                        | _ => None
                        end
                    | None => None
                    end
                | _ => None
                end
            | None => None
            end
          else None
      | EmptyString => None
      end
  end
with parse_elements (fuel : nat) (s : string) (acc : list value) {struct fuel}
  : option (value * string) :=
  match fuel with
  | O => None
  | S fuel' =>
      match parse_value fuel' s with
      | Some (v, r) =>
          match skip_ws r with
          | String ","%char r' => parse_elements fuel' r' (acc ++ [v])
          | String "]"%char r' => Some (VArr (acc ++ [v]), r')
          | _ => None
          end
      | None => None
      end
  end.

Definition JSON_parse (s : string) : result value :=
  match parse_value (2 * String.length s + 2) s with
  | Some (v, rest) =>
      match skip_ws rest with
      | EmptyString => Ok v
      | _ => Throw SyntaxError
      end
  | None => Throw SyntaxError
  end.

End Ref.

(* ================================================================== *)
(** ** The component's surroundings *)
(* ================================================================== *)

(** One parameter of [queryString.parse(location.search)]: a string,
    [null] for a key without a value, or an array when the key is
    repeated. *)
Inductive qvalue : Type :=
| QNull
| QStr (s : string)
| QMany (items : list (option string)).

Definition query := list (string * qvalue).

(** [const { options } = ...]: [None] is [undefined]. *)
Fixpoint qlookup (k : string) (q : query) : option qvalue :=
  match q with
  | [] => None
  | (k', v) :: rest => if k' =? k then Some v else qlookup k rest
  end.

Definition qtruthy (o : option qvalue) : bool :=
  match o with
  | Some (QStr s) => negb (s =? "")
  | Some (QMany _) => true
  | Some QNull | None => false
  end.

Fixpoint join (items : list (option string)) : string :=
  match items with
  | [] => ""
  | [x] => match x with Some s => s | None => "" end
  | x :: rest =>
      String.append (match x with Some s => s | None => "" end)
        (String.append "," (join rest))
  end.

(** [ToString], applied by [decodeURIComponent] to its argument. *)
Definition qstring (o : option qvalue) : string :=
  match o with
  | Some (QStr s) => s
  | Some (QMany items) => join items
  | Some QNull => "null"
  | None => "undefined"
  end.

(** What the handlers read from the browser: whether [window.parent]
    is truthy, and [document.hasFocus] ([None] when the method is
    missing, otherwise what it returns). *)
Record env : Type := {
  window_parent : bool;
  document_hasFocus : option bool
}.

(** Where the window of the widget lives.  [window.parent] is the
    embedding window in a frame and the window itself on a top-level
    page, both truthy; it is [null] only for a window detached from
    its browsing context. *)
Inductive context : Type :=
| TopLevel
| Framed
| Detached.

Definition has_parent (c : context) : bool :=
  match c with
  | TopLevel | Framed => true
  | Detached => false
  end.

Definition page (c : context) (focus : option bool) : env :=
  {| window_parent := has_parent c; document_hasFocus := focus |}.

(** The injected props the handlers read. *)
Record view : Type := {
  isReady : bool;
  activeView : string
}.

(** The instance's own mutable fields: [this.state.played] and
    [this.parentClass] ([None] is [undefined]). *)
Record web : Type := {
  played : bool;
  parentClass : option string
}.

Definition initial : web := {| played := false; parentClass := None |}.

(** The record mobx hands to an observer. *)
Record change : Type := {
  oldValue : value;
  newValue : value
}.

(** What the event loop hands to the component while it waits for
    messages: a socket message, or the expiry of a timer. *)
Inductive input : Type :=
| Message (event : value)
| TimerFires.

(** An input, when it arrives (in milliseconds) and what the browser
    and the store say at that moment. *)
Record arrival : Type := {
  at_time : N;
  browser : env;
  props : view;
  what : input
}.

(** The instance together with the deadlines of its pending timers,
    oldest first. *)
Record sys : Type := {
  instance : web;
  timers : list N
}.

Definition start : sys := {| instance := initial; timers := [] |}.

(* ================================================================== *)
(** ** Sample inputs *)
(* ================================================================== *)

(** Concrete inputs on which the component is run further down.  The
    default configuration here is a stand-in with three keys: the
    component is verified for any default configuration. *)
Module Sample.

Definition defaults : object :=
  [("locale", VStr "browser");
   ("userId", VUndefined);
   ("showConversationsButton", VBool true)].

(** A query string without an [options] parameter. *)
Definition search_plain : query := [("lang", QStr "en")].

(** [options] = {config: {userId: 'u1', theme: 'dark'}}, URL-encoded. *)
Definition search_user : query :=
  [("options",
    QStr "%7B%22config%22%3A%7B%22userId%22%3A%22u1%22%2C%22theme%22%3A%22dark%22%7D%7D")].

Definition partial_user : value :=
  VObj [("userId", VStr "u1"); ("theme", VStr "dark")].

(** [options] = {config: {overrides: {composer: {module: 'extensions'}}}},
    URL-encoded. *)
Definition search_overrides : query :=
  [("options",
    QStr "%7B%22config%22%3A%7B%22overrides%22%3A%7B%22composer%22%3A%7B%22module%22%3A%22extensions%22%7D%7D%7D%7D")].

Definition overrides : value :=
  VObj [("composer", VObj [("module", VStr "extensions")])].

(** [options] cut short: {config: *)
Definition search_truncated : query := [("options", QStr "%7B%22config%22%3A")].


(** A window detached from its browsing context ([window.parent] is
    [null]): the one case in which the guards on [window.parent] do
    not pass. *)
Definition detached : env := page Detached (Some false).

(** The widget embedded in a frame; the document has no focus. *)
Definition embedded : env :=
  {| window_parent := true; document_hasFocus := Some false |}.

Definition side : view := {| isReady := true; activeView := "side" |}.

Definition widget : view := {| isReady := true; activeView := "widget" |}.

(** The side panel while the store is still loading. *)
Definition loading : view := {| isReady := false; activeView := "side" |}.

Definition text_event : value :=
  VObj [("payload", VObj [("type", VStr "text"); ("text", VStr "hello")])].

Definition visit_event : value :=
  VObj [("payload", VObj [("type", VStr "visit")])].

(** Three messages within 30 ms, the timer of the first sound, and a
    fourth message after it. *)
Definition burst : list arrival :=
  [ {| at_time := 100; browser := embedded; props := side; what := Message text_event |};
    {| at_time := 110; browser := embedded; props := side; what := Message text_event |};
    {| at_time := 130; browser := embedded; props := widget; what := Message text_event |};
    {| at_time := 1100; browser := embedded; props := side; what := TimerFires |};
    {| at_time := 1105; browser := embedded; props := side; what := Message text_event |} ]%N.

End Sample.

(** Further inputs, for the properties beyond the claims. *)
Module More.

(** [options] = 5: a payload that parses but is no object. *)
Definition search_number : query := [("options", QStr "5")].

(** [options] = null. *)
Definition search_null : query := [("options", QStr "null")].

(** Two overrides, and the same with a [null] between them. *)
Definition two_overrides : value :=
  VObj [("composer", VObj [("module", VStr "extensions")]);
        ("sidebar", VObj [("module", VStr "custom")])].

Definition broken_overrides : value :=
  VObj [("composer", VObj [("module", VStr "extensions")]);
        ("header", VNull);
        ("sidebar", VObj [("module", VStr "custom")])].

(** [options] = {config: {userId: 'u1', overrides: {composer: {module:
    'extensions'}, header: null, sidebar: {module: 'custom'}}}},
    URL-encoded. *)
Definition search_broken_overrides : query :=
  [("options",
    QStr "%7B%22config%22%3A%7B%22userId%22%3A%22u1%22%2C%22overrides%22%3A%7B%22composer%22%3A%7B%22module%22%3A%22extensions%22%7D%2C%22header%22%3Anull%2C%22sidebar%22%3A%7B%22module%22%3A%22custom%22%7D%7D%7D%7D")].

(** A partial with an own property named [__proto__], as [JSON.parse]
    makes one, and the query string that carries it: [options] =
    {config: {__proto__: 5, theme: 'dark'}}, URL-encoded. *)
Definition partial_proto : value :=
  VObj [("__proto__", VNum 5 0); ("theme", VStr "dark")].

Definition search_proto : query :=
  [("options",
    QStr "%7B%22config%22%3A%7B%22__proto__%22%3A5%2C%22theme%22%3A%22dark%22%7D%7D")].


(** An [event] message that has no payload. *)
Definition event_without_payload : value :=
  VObj [("action", VStr "event")].

(** A browser without [document.hasFocus], in a frame. *)
Definition old_browser : env :=
  {| window_parent := true; document_hasFocus := None |}.

(** The document has the focus, in a frame. *)
Definition focused : env :=
  {| window_parent := true; document_hasFocus := Some true |}.

Definition message_at (t : N) : arrival :=
  {| at_time := t; browser := Sample.embedded; props := Sample.side;
     what := Message Sample.text_event |}.

Definition expiry_at (t : N) : arrival :=
  {| at_time := t; browser := Sample.embedded; props := Sample.side;
     what := TimerFires |}.

(** The event loop right after a sound at 100 ms, with a cooldown of
    one second. *)
Definition after_sound : sys :=
  {| instance := {| played := true; parentClass := None |}; timers := [1100%N] |}.

End More.

(** *** Proof steps used more than once *)

(** In [H : mid ++ x :: after = l] with [l] a list written out, tries
    every place [x] may have in [l]. *)
Ltac peel H mid :=
  repeat (destruct mid as [|? mid]; simpl in H;
          [ try discriminate H | injection H as ? H; subst ]).

Ltac conjuncts := repeat match goal with |- _ /\ _ => split end.

(** The keys of an object written out are pairwise distinct. *)
Ltac distinct_keys :=
  cbv; repeat (constructor; [cbv; intuition discriminate|]); constructor.

(** An object written out is plain: its keys are in the order of
    [Object.keys] and none is [__proto__]. *)
Ltac plain_object :=
  split; [repeat constructor | cbv; intuition discriminate].

(* ================================================================== *)
(** ** The component *)
(* ================================================================== *)

Section Web.

(** Built-ins of the platform. *)
Variable decodeURIComponent : string -> result string.
Variable JSON_parse : string -> result value.

(** [constants.DEFAULT_CONFIG] and [constants.MIN_TIME_BETWEEN_SOUNDS]
    of [./core/constants]. *)
Variable DEFAULT_CONFIG : object.
Variable MIN_TIME_BETWEEN_SOUNDS : N.

Definition extractConfig (search : query) : M value :=
  let options := qlookup "options" search in
  text <- lift (decodeURIComponent
                  (if qtruthy options then qstring options else "{}")) ;;
  parsed <- lift (JSON_parse text) ;;
  config <- lift (get_member parsed "config") ;;
  let userConfig := Object_assign (VObj []) [VObj DEFAULT_CONFIG; config] in
  perform (UpdateConfig userConfig true) ;;
  ret userConfig.

(** [const _values = obj => Object.keys(obj).map(x => obj[x])] *)
Definition _values (obj : value) : M (list value) :=
  keys <- lift (Object_keys obj) ;;
  ret (map (get obj) keys).

Fixpoint for_of (items : list value) (body : value -> M unit) : M unit :=
  match items with
  | [] => ret tt
  | x :: rest => body x ;; for_of rest body
  end.

Definition loadOverrides (overrides : value) : M unit :=
  items <- _values overrides ;;
  for_of items (fun override =>
    module <- lift (get_member override "module") ;;
    perform (LoadModuleView module true)).

Definition setupObserver : M unit :=
  perform (Observe ConfigUserId) ;;
  perform (Observe ConfigOverrides) ;;
  perform (Observe DimensionsContainer).

(** The callback observing [config.userId]. *)
Definition on_userId (data : change) : proc :=
  if negb (truthy (oldValue data)) then Done
  else Await (SocketChangeUserId (newValue data)) (Await InitializeChat Done).


(** The callback observing [dimensions.container]. *)
Definition on_container (w : env) (data : change) : M unit :=
  if truthy (newValue data) && window_parent w
  then perform (PostMessage
                  (VObj [("type", VStr "setWidth"); ("value", newValue data)]) "*")
  else ret tt.

(** The synchronous part of [initialize], up to its first [await]. *)
Definition initialize_sync (search : query) : M unit :=
  perform NewBpSocket ;;
  perform SetOnMessage ;;
  perform SetOnTyping ;;
  perform SetOnUserIdChanged ;;
  perform SocketSetup ;;
  config <- extractConfig search ;;
  (if truthy (get config "overrides")
   then loadOverrides (get config "overrides") else ret tt) ;;
  (if truthy (get config "userId")
   then perform (SocketChangeUserId (get config "userId")) else ret tt).

Definition initialize (search : query) : proc :=
  sync (initialize_sync search) (fun _ =>
  Await SocketWaitForUserId (
  Await InitializeChat (
  sync setupObserver (fun _ =>
  Do SetLoadingCompleted Done)))).

Definition componentDidMount (search : query) : proc :=
  Do AddMessageListener (initialize search).

Definition componentWillUnmount : M unit :=
  perform RemoveMessageListener.

(** [handleIframeApi = ({ data: { action, payload } }) => ...]; the
    argument here is the [data] of the message event. *)
Definition handleIframeApi (data : value) : M unit :=
  action <- lift (get_member data "action") ;;
  payload <- lift (get_member data "payload") ;;
  if is_str action "configure" then
    perform (UpdateConfig (Object_assign (VObj []) [VObj DEFAULT_CONFIG; payload]) false)
  else if is_str action "event" then
    type <- lift (get_member payload "type") ;;
    text <- lift (get_member payload "text") ;;
    if is_str type "show" then perform ShowChat
    else if is_str type "hide" then perform HideChat
    else if is_str type "message" then perform (SendMessage text)
    else perform (SendData (VObj [("type", type); ("payload", payload)]))
  else ret tt.

Definition playSound (st : web) : M web :=
  if played st then ret st
  else
    perform (AudioPlay "/assets/modules/channel-web/notification.mp3") ;;
    let st' := {| played := true; parentClass := parentClass st |} in
    perform (SetTimeout MIN_TIME_BETWEEN_SOUNDS) ;;
    ret st'.

(** What the timer set by [playSound] does when it fires. *)
Definition sound_timer (st : web) : web :=
  {| played := false; parentClass := parentClass st |}.

Definition has_focus (w : env) : bool :=
  match document_hasFocus w with
  | Some b => b
  | None => false
  end.

(** [document.hasFocus && !document.hasFocus()] *)
Definition lacks_focus (w : env) : bool :=
  match document_hasFocus w with
  | Some b => negb b
  | None => false
  end.

Definition handleResetUnreadCount (w : env) (p : view) : M unit :=
  if has_focus w && (activeView p =? "side")
  then perform ResetUnread
  else ret tt.

(** The test that opens [handleNewMessage]. *)
Definition is_visit (event : value) : M bool :=
  payload <- lift (get_member event "payload") ;;
  if truthy payload && is_str (get payload "type") "visit" then ret true
  else
    message_type <- lift (get_member event "message_type") ;;
    ret (is_str message_type "visit").

Definition handleNewMessage (w : env) (p : view) (st : web) (event : value) : M web :=
  visit <- is_visit event ;;
  if visit then ret st
  else
    perform (AddEventToConversation event) ;;
    st' <- (if lacks_focus w || negb (activeView p =? "side")
            then st1 <- playSound st ;; perform IncrementUnread ;; ret st1
            else ret st) ;;
    handleResetUnreadCount w p ;;
    ret st'.

Definition class_of (p : view) : string :=
  String.append "bp-widget-web bp-widget-" (activeView p).

Definition setClass (cls : string) : call :=
  PostMessage (VObj [("type", VStr "setClass"); ("value", VStr cls)]) "*".

Definition same_class (last : option string) (cls : string) : bool :=
  match last with
  | Some s => s =? cls
  | None => false
  end.

(** The part of [render] before the markup: the calls made and the
    instance afterwards. *)
Definition render (w : env) (p : view) (st : web) : list call * web :=
  if negb (isReady p) then ([], st)
  else
    let cls := class_of p in
    if negb (same_class (parentClass st) cls) then
      ((if window_parent w then [setClass cls] else []),
       {| played := played st; parentClass := Some cls |})
    else ([], st).

(** *** The component over time *)

(** Deadlines of the timers set by the calls [t] made at time [now]. *)
Definition deadlines (now : N) (t : list call) : list N :=
  flat_map (fun c => match c with SetTimeout d => [(now + d)%N] | _ => [] end) t.

(** One turn of the event loop.  A timer never fires before its
    deadline; it may fire any time later. *)
Definition deliver (a : arrival) (s : sys) : list call * sys :=
  match what a with
  | Message event =>
      let (t, r) := handleNewMessage (browser a) (props a) (instance s) event in
      (t, {| instance := match r with Ok st => st | Throw _ => instance s end;
             timers := timers s ++ deadlines (at_time a) t |})
  | TimerFires =>
      match timers s with
      | due :: rest =>
          if (due <=? at_time a)%N
          then ([], {| instance := sound_timer (instance s); timers := rest |})
          else ([], s)
      | [] => ([], s)
      end
  end.

(** The calls made while the arrivals are handled, each with its time. *)
Fixpoint event_loop (arrivals : list arrival) (s : sys) : list (N * call) :=
  match arrivals with
  | [] => []
  | a :: rest =>
      let (t, s') := deliver a s in
      map (pair (at_time a)) t ++ event_loop rest s'
  end.

(** Successive render passes. *)
Fixpoint renders (w : env) (passes : list view) (st : web) : list call * web :=
  match passes with
  | [] => ([], st)
  | p :: rest =>
      let (t, st1) := render w p st in
      let (t', st2) := renders w rest st1 in
      (t ++ t', st2)
  end.

(** *** Vocabulary of the properties *)

Definition raises {A} (m : M A) : Prop := exists e, outcome m = Throw e.

(** The configuration [Object.assign({}, DEFAULT_CONFIG, partial)]. *)
Definition resolved (partial : value) : value :=
  Object_assign (VObj []) [VObj DEFAULT_CONFIG; partial].

(** Its own properties. *)
Definition merged (partial : value) : object :=
  own_props (resolved partial).

Definition keys (o : object) : list string := map fst o.

(** Keys in the order [Object.keys] gives them: no key comes after a
    key it precedes. *)
Definition ordered (ks : list string) : Prop :=
  StronglySorted (fun k k' => precedes k' k = false) ks.

(** A property list as an object literal gives it: in the order of
    [Object.keys], and without a property named [__proto__] (in a
    literal that name sets the prototype). *)
Definition plain (o : object) : Prop :=
  ordered (keys o) /\ ~ In "__proto__" (keys o).

(** What [Object.assign] makes of a property named [__proto__] in a
    source, on a target that inherits the setter: an object or [null]
    becomes the prototype. *)
Definition prototype_from (o : object) : option value :=
  match lookup "__proto__" o with
  | Some v =>
      match v with
      | VNull | VArr _ | VObj _ | VInherit _ _ => Some v
      | _ => None
      end
  | None => None
  end.

(** A value with the prototype [Object.assign] leaves it:
    [Object.prototype] unless a source replaced it. *)
Definition with_prototype (proto : option value) (o : object) : value :=
  match proto with
  | Some p => VInherit p o
  | None => VObj o
  end.

(** The targets of [Object.assign]: objects that are no arrays. *)
Definition record (t : value) : Prop :=
  match t with
  | VObj _ | VInherit _ _ => True
  | _ => False
  end.

(** The object [t] with other own properties. *)
Definition with_own (t : value) (o : object) : value :=
  match t with
  | VObj _ => VObj o
  | VInherit p _ => VInherit p o
  | _ => t
  end.

(** The properties [Object.assign] copies as own properties. *)
Definition copied (o : object) : object :=
  filter (fun kv => negb (fst kv =? "__proto__")) o.

(** What [extractConfig] decodes: the [options] parameter when it is
    truthy, the text of an empty object otherwise. *)
Definition options_text (search : query) : string :=
  if qtruthy (qlookup "options" search)
  then qstring (qlookup "options" search)
  else "{}".

(** What the bootstrap does about overrides. *)
Definition bootstrap_overrides (config : value) : M unit :=
  if truthy (get config "overrides")
  then loadOverrides (get config "overrides")
  else ret tt.

(** What the bootstrap does about an explicit user id. *)
Definition bootstrap_userId (config : value) : list call :=
  if truthy (get config "userId")
  then [SocketChangeUserId (get config "userId")]
  else [].

Definition is_completed (c : call) : bool :=
  match c with SetLoadingCompleted => true | _ => false end.

(** The condition that opens [handleNewMessage], as a value. *)
Definition visit (event : value) : bool :=
  truthy (get event "payload")
  && is_str (get (get event "payload") "type") "visit"
  || is_str (get event "message_type") "visit".

Definition is_increment (c : call) : bool :=
  match c with IncrementUnread => true | _ => false end.

Definition is_sound (c : call) : bool :=
  match c with AudioPlay _ => true | _ => false end.

(** The latch is open and no timer is pending. *)
Definition quiet (s : sys) : Prop :=
  played (instance s) = false /\ timers s = [].

(** The latch is closed and the one pending timer is due at [until]. *)
Definition muted (until : N) (s : sys) : Prop :=
  played (instance s) = true /\ timers s = [until].

(** When the notification sound was played. *)
Definition sound_times (t : list (N * call)) : list N :=
  map fst (filter (fun tc => is_sound (snd tc)) t).

Definition chronological (arrivals : list arrival) : Prop :=
  Sorted (fun a b => (at_time a <= at_time b)%N) arrivals.

(** Any two of the times are at least [gap] apart. *)
Definition spaced (gap : N) (times : list N) : Prop :=
  StronglySorted (fun t1 t2 => (t1 + gap <= t2)%N) times.

(** The class carried by a [setClass] message. *)
Definition setClass_value (c : call) : option string :=
  match c with
  | PostMessage m _ =>
      if is_str (get m "type") "setClass"
      then match get m "value" with VStr cls => Some cls | _ => None end
      else None
  | _ => None
  end.

(** The class last sent to the parent frame: [before] to begin with,
    then the class of the latest [setClass] message of the trace. *)
Definition last_sent_after (before : option string) (t : list call) : option string :=
  fold_left (fun last c => match setClass_value c with
                           | Some cls => Some cls
                           | None => last
                           end) t before.

Definition last_sent (t : list call) : option string := last_sent_after None t.

(** *** Vocabulary of the further properties *)

(** The calls the bootstrap may make before its first [await]. *)
Definition is_setup (c : call) : bool :=
  match c with
  | NewBpSocket | SetOnMessage | SetOnTyping | SetOnUserIdChanged | SocketSetup
  | UpdateConfig _ _ | LoadModuleView _ _ | SocketChangeUserId _ => true
  | _ => false
  end.

(** What the bootstrap always does before it resolves the
    configuration. *)
Definition socket_setup : list call :=
  [AddMessageListener; NewBpSocket; SetOnMessage; SetOnTyping;
   SetOnUserIdChanged; SocketSetup].

Definition is_added (c : call) : bool :=
  match c with AddEventToConversation _ => true | _ => false end.

Definition is_reset (c : call) : bool :=
  match c with ResetUnread => true | _ => false end.

Definition is_timer (a : arrival) : bool :=
  match what a with TimerFires => true | Message _ => false end.

(** The condition under which [handleNewMessage] counts a message as
    unread: [(document.hasFocus && !document.hasFocus()) ||
    this.props.activeView !== 'side']. *)
Definition unattended (w : env) (p : view) : bool :=
  lacks_focus w || negb (activeView p =? "side").

(** The state of the event loop after the arrivals. *)
Fixpoint event_loop_end (arrivals : list arrival) (s : sys) : sys :=
  match arrivals with
  | [] => s
  | a :: rest => event_loop_end rest (snd (deliver a s))
  end.

Definition setWidth (v : value) : call :=
  PostMessage (VObj [("type", VStr "setWidth"); ("value", v)]) "*".

(** The calls of the watcher of [dimensions.container] over successive
    changes of the field. *)
Definition container_reports (w : env) (changes : list change) : list call :=
  flat_map (fun data => calls (on_container w data)) changes.

(* ================================================================== *)
(** ** Objects: reading after writing *)
(* ================================================================== *)

Lemma has_own_lookup (k : string) (o : object) :
  has_own k o = false <-> lookup k o = None.
Proof.
  unfold has_own. destruct (lookup k o); split; congruence.
Qed.

Lemma lookup_replace_same (k : string) (v : value) (o : object) :
  has_own k o = true -> lookup k (replace k v o) = Some v.
Proof.
  unfold has_own. induction o as [|[k' v'] o IH]; simpl; [discriminate|].
  destruct (k' =? k) eqn:E; simpl.
  - now rewrite String.eqb_refl.
  - now rewrite E.
Qed.

Lemma lookup_replace_other (k k' : string) (v : value) (o : object) :
  k' <> k -> lookup k (replace k' v o) = lookup k o.
Proof.
  intros Hne. induction o as [|[k1 v1] o IH]; simpl; [reflexivity|].
  destruct (k1 =? k') eqn:E; simpl.
  - apply String.eqb_eq in E. subst k1.
    apply String.eqb_neq in Hne. now rewrite Hne.
  - destruct (k1 =? k); [reflexivity | exact IH].
Qed.

Lemma lookup_insert_same (k : string) (v : value) (o : object) :
  lookup k o = None -> lookup k (insert k v o) = Some v.
Proof.
  induction o as [|[k' v'] o IH]; simpl.
  - now rewrite String.eqb_refl.
  - destruct (k' =? k) eqn:E; [discriminate|]. intros Hnone.
    destruct (precedes k k'); simpl.
    + now rewrite String.eqb_refl.
    + rewrite E. now apply IH.
Qed.

Lemma lookup_insert_other (k k' : string) (v : value) (o : object) :
  k' <> k -> lookup k (insert k' v o) = lookup k o.
Proof.
  intros Hne. pose proof Hne as Hneb. apply String.eqb_neq in Hneb.
  induction o as [|[k1 v1] o IH]; simpl.
  - now rewrite Hneb.
  - destruct (precedes k' k1); simpl.
    + now rewrite Hneb.
    + destruct (k1 =? k); [reflexivity | exact IH].
Qed.

Lemma lookup_set_same (k : string) (v : value) (o : object) :
  lookup k (set k v o) = Some v.
Proof.
  unfold set. destruct (has_own k o) eqn:E.
  - now apply lookup_replace_same.
  - apply lookup_insert_same. now apply has_own_lookup.
Qed.

Lemma lookup_set_other (k k' : string) (v : value) (o : object) :
  k' <> k -> lookup k (set k' v o) = lookup k o.
Proof.
  intros Hne. unfold set. destruct (has_own k' o).
  - now apply lookup_replace_other.
  - now apply lookup_insert_other.
Qed.

Lemma lookup_absent (k : string) (o : object) :
  ~ In k (keys o) -> lookup k o = None.
Proof.
  induction o as [|[k' v'] o IH]; simpl; intros Hn; [reflexivity|].
  destruct (k' =? k) eqn:E.
  - apply String.eqb_eq in E. tauto.
  - apply IH. tauto.
Qed.


(** Copying properties with distinct keys one by one: a key among
    them reads as copied, any other key reads as before. *)
Lemma lookup_copied (k : string) (ps target : object) :
  NoDup (keys ps) ->
  lookup k (fold_left (fun o kv => set (fst kv) (snd kv) o) ps target)
  = match lookup k ps with
    | Some v => Some v
    | None => lookup k target
    end.
Proof.
  revert target. induction ps as [|[k1 v1] ps IH]; intros target Hnd; simpl.
  - reflexivity.
  - inversion Hnd as [|? ? Hnotin Hnd']; subst.
    rewrite IH by assumption.
    destruct (k1 =? k) eqn:E.
    + apply String.eqb_eq in E. subst k1.
      rewrite (lookup_absent k ps Hnotin). apply lookup_set_same.
    + apply String.eqb_neq in E.
      now rewrite (lookup_set_other k k1 v1 target E).
Qed.

Lemma insert_last (k : string) (v : value) (o : object) :
  Forall (fun k' => precedes k k' = false) (keys o) ->
  insert k v o = o ++ [(k, v)].
Proof.
  induction o as [|[k' v'] o IH]; simpl; intros Hall; [reflexivity|].
  inversion Hall as [|? ? Hk' Hrest]; subst.
  rewrite Hk'. f_equal. now apply IH.
Qed.

Lemma set_fresh (k : string) (v : value) (o : object) :
  ~ In k (keys o) ->
  Forall (fun k' => precedes k k' = false) (keys o) ->
  set k v o = o ++ [(k, v)].
Proof.
  intros Hn Hall. unfold set.
  rewrite (proj2 (has_own_lookup k o) (lookup_absent k o Hn)).
  now apply insert_last.
Qed.

Lemma ordered_app (ks : list string) (k : string) (later : list string) :
  ordered (ks ++ k :: later) ->
  Forall (fun k' => precedes k k' = false) ks /\ ordered (ks ++ [k]).
Proof.
  unfold ordered. induction ks as [|k0 ks IH]; simpl; intros H.
  - split; repeat constructor.
  - inversion H as [|? ? Hrest Hall]; subst.
    destruct (IH Hrest) as [Hf Ho]. split.
    + constructor; [|exact Hf].
      rewrite Forall_forall in Hall. apply Hall.
      apply in_or_app. right. now left.
    + constructor; [exact Ho|].
      rewrite Forall_forall in *. intros x Hx. apply Hall.
      apply in_app_or in Hx. apply in_or_app.
      destruct Hx as [Hx|[<-|[]]]; [now left | right; now left].
Qed.

(** Copying properties that the target lacks, when target and
    properties together are in the order of [Object.keys], appends
    them. *)
Lemma copy_fresh (ps target : object) :
  NoDup (keys ps) ->
  (forall k, In k (keys ps) -> ~ In k (keys target)) ->
  ordered (keys (target ++ ps)) ->
  fold_left (fun o kv => set (fst kv) (snd kv) o) ps target = target ++ ps.
Proof.
  revert target. induction ps as [|[k1 v1] ps IH]; intros target Hnd Hfresh Hord; simpl.
  - now rewrite app_nil_r.
  - inversion Hnd as [|? ? Hnotin Hnd']; subst.
    unfold keys in Hord. rewrite map_app in Hord. simpl in Hord.
    destruct (ordered_app _ _ _ Hord) as [Hlast _].
    rewrite set_fresh; [| apply Hfresh; now left | exact Hlast].
    rewrite IH.
    + now rewrite <- app_assoc.
    + assumption.
    + intros k Hin Hin'. unfold keys in Hin'. rewrite map_app in Hin'.
      apply in_app_or in Hin'. destruct Hin' as [Hin'|[<-|[]]].
      * apply (Hfresh k); [now right | exact Hin'].
      * exact (Hnotin Hin).
    + unfold keys. rewrite <- app_assoc, map_app. exact Hord.
Qed.

(* ================================================================== *)
(** ** Objects: what Object.assign writes *)
(* ================================================================== *)

Lemma put_ordinary (k : string) (v : value) (t : value) :
  record t ->
  (k =? "__proto__") = false ->
  put k v t = with_own t (set k v (own_props t)).
Proof.
  intros Hr Hk. destruct t; try contradiction; simpl; now rewrite Hk.
Qed.

Lemma record_with_own (t : value) (o : object) :
  record t -> record (with_own t o) /\ own_props (with_own t o) = o.
Proof.
  destruct t; try contradiction; simpl; auto.
Qed.

Lemma with_own_twice (t : value) (o o' : object) :
  with_own (with_own t o) o' = with_own t o'.
Proof. now destruct t. Qed.

(** Properties none of which is named [__proto__] are all written as
    own properties; the prototype stays. *)
Lemma fold_put_ordinary (ps : object) (t : value) :
  record t ->
  ~ In "__proto__" (keys ps) ->
  fold_left (fun t kv => put (fst kv) (snd kv) t) ps t
  = with_own t (fold_left (fun o kv => set (fst kv) (snd kv) o) ps (own_props t)).
Proof.
  revert t. induction ps as [|[k1 v1] ps IH]; intros t Hr Hn; simpl.
  - destruct t; try contradiction; reflexivity.
  - assert (Hk : (k1 =? "__proto__") = false).
    { apply String.eqb_neq. intros ->. apply Hn. now left. }
    rewrite put_ordinary by assumption.
    destruct (record_with_own t (set k1 v1 (own_props t)) Hr) as [Hr' Hown].
    rewrite IH; [| exact Hr' | intros H; apply Hn; now right].
    now rewrite Hown, with_own_twice.
Qed.

(** A write of [__proto__] leaves the own properties as they are, or
    defines one more, named [__proto__]. *)
Lemma put_proto (v : value) (t : value) :
  record t ->
  record (put "__proto__" v t)
  /\ (own_props (put "__proto__" v t) = own_props t
      \/ own_props (put "__proto__" v t) = set "__proto__" v (own_props t)).
Proof.
  intros Hr. destruct t as [| | | | | |o|p o]; try contradiction; simpl.
  - destruct (negb (has_own "__proto__" o)); simpl; [|tauto].
    destruct v; simpl; tauto.
  - destruct (negb (has_own "__proto__" o) && reaches_setter p); simpl; [|tauto].
    destruct v; simpl; tauto.
Qed.

(** Whatever a source holds, a key other than [__proto__] reads as
    copied when the source has it, and as before otherwise. *)
Lemma lookup_assigned (k : string) (ps : object) (t : value) :
  record t ->
  NoDup (keys ps) ->
  k <> "__proto__" ->
  lookup k (own_props (fold_left (fun t kv => put (fst kv) (snd kv) t) ps t))
  = match lookup k ps with
    | Some v => Some v
    | None => lookup k (own_props t)
    end
  /\ record (fold_left (fun t kv => put (fst kv) (snd kv) t) ps t).
Proof.
  intros Hr Hnd Hk. revert t Hr.
  induction ps as [|[k1 v1] ps IH]; intros t Hr; simpl.
  - now split.
  - inversion Hnd as [|? ? Hnotin Hnd']; subst.
    assert (Hstep : record (put k1 v1 t)
                    /\ lookup k (own_props (put k1 v1 t))
                       = if k1 =? k then Some v1 else lookup k (own_props t)).
    { destruct (k1 =? "__proto__") eqn:E.
      - apply String.eqb_eq in E. subst k1.
        destruct (put_proto v1 t Hr) as [Hr' [Hsame|Hset]]; split; try exact Hr'.
        + rewrite Hsame. destruct ("__proto__" =? k) eqn:E; [|reflexivity].
          apply String.eqb_eq in E. congruence.
        + rewrite Hset. destruct ("__proto__" =? k) eqn:E.
          * apply String.eqb_eq in E. congruence.
          * apply lookup_set_other. congruence.
      - rewrite put_ordinary by assumption.
        destruct (record_with_own t (set k1 v1 (own_props t)) Hr) as [Hr' Hown].
        split; [exact Hr'|]. rewrite Hown.
        destruct (k1 =? k) eqn:E'.
        + apply String.eqb_eq in E'. subst k1. apply lookup_set_same.
        + apply String.eqb_neq in E'. now apply lookup_set_other. }
    destruct Hstep as [Hr' Hlook].
    destruct (IH Hnd' (put k1 v1 t) Hr') as [Hl Hrec]. split; [|exact Hrec].
    rewrite Hl, Hlook.
    destruct (k1 =? k) eqn:E.
    + apply String.eqb_eq in E. subst k1. now rewrite (lookup_absent k ps Hnotin).
    + reflexivity.
Qed.

Lemma copied_without_proto (ps : object) :
  ~ In "__proto__" (keys ps) -> copied ps = ps /\ prototype_from ps = None.
Proof.
  intros Hn. split.
  - unfold copied. induction ps as [|[k v] ps IH]; simpl; [reflexivity|].
    destruct (k =? "__proto__") eqn:E; simpl.
    + apply String.eqb_eq in E. subst k. exfalso. apply Hn. now left.
    + f_equal. apply IH. intros H. apply Hn. now right.
  - unfold prototype_from. now rewrite (lookup_absent _ _ Hn).
Qed.

(** [Object.assign] of one source on a target that has the prototype
    [Object.prototype] and no property named [__proto__]: the
    properties of the source are copied, but for the one named
    [__proto__], which replaces the prototype when it is an object or
    [null]. *)
Lemma assign_on_plain (ps o : object) :
  has_own "__proto__" o = false ->
  NoDup (keys ps) ->
  fold_left (fun t kv => put (fst kv) (snd kv) t) ps (VObj o)
  = with_prototype (prototype_from ps)
      (fold_left (fun o kv => set (fst kv) (snd kv) o) (copied ps) o).
Proof.
  revert o. induction ps as [|[k1 v1] ps IH]; intros o Ho Hnd; simpl.
  - reflexivity.
  - inversion Hnd as [|? ? Hnotin Hnd']; subst.
    destruct (k1 =? "__proto__") eqn:E.
    + apply String.eqb_eq in E. subst k1.
      destruct (copied_without_proto ps Hnotin) as [Hc _].
      unfold copied in *. simpl. rewrite Hc.
      unfold prototype_from. simpl. rewrite Ho. simpl.
      destruct v1; simpl;
        first [ now rewrite (fold_put_ordinary ps (VObj o) I Hnotin)
              | now rewrite (fold_put_ordinary ps (VInherit _ o) I Hnotin) ].
    + unfold copied in *. simpl.
      rewrite IH; [| | assumption].
      * unfold prototype_from. simpl.
        rewrite String.eqb_sym in E. rewrite String.eqb_sym, E. reflexivity.
      * apply has_own_lookup. rewrite lookup_set_other.
        -- now apply has_own_lookup.
        -- apply String.eqb_neq. exact E.
Qed.

(* ================================================================== *)
(** ** Configuration *)
(* ================================================================== *)

(** The defaults alone: the object of the defaults. *)
Lemma resolved_defaults :
  NoDup (keys DEFAULT_CONFIG) ->
  plain DEFAULT_CONFIG ->
  assign1 (VObj []) (VObj DEFAULT_CONFIG) = VObj DEFAULT_CONFIG.
Proof.
  intros Hnd [Hord Hn]. unfold assign1. simpl.
  rewrite (fold_put_ordinary DEFAULT_CONFIG (VObj []) I Hn). simpl.
  now rewrite copy_fresh.
Qed.

(** With nothing to overlay, the resolved configuration is the default
    one, key for key and in the same order. *)
Lemma resolved_nothing (partial : value) :
  NoDup (keys DEFAULT_CONFIG) ->
  plain DEFAULT_CONFIG ->
  own_props partial = [] ->
  resolved partial = VObj DEFAULT_CONFIG.
Proof.
  intros Hnd Hp Hempty. unfold resolved, Object_assign. simpl.
  rewrite resolved_defaults by assumption.
  unfold assign1. now rewrite Hempty.
Qed.

(** The resolved configuration, when the defaults are a plain object. *)
Lemma resolved_shape (partial : value) :
  NoDup (keys DEFAULT_CONFIG) ->
  plain DEFAULT_CONFIG ->
  NoDup (keys (own_props partial)) ->
  resolved partial
  = with_prototype (prototype_from (own_props partial))
      (fold_left (fun o kv => set (fst kv) (snd kv) o)
                 (copied (own_props partial)) DEFAULT_CONFIG).
Proof.
  intros Hnd Hp Hpartial. unfold resolved, Object_assign. simpl.
  rewrite resolved_defaults by assumption.
  unfold assign1. apply assign_on_plain; [|assumption].
  apply has_own_lookup, lookup_absent. apply Hp.
Qed.

(** The own properties of the resolved configuration, key by key. *)
Lemma merged_lookup (partial : value) (k : string) :
  NoDup (keys DEFAULT_CONFIG) ->
  NoDup (keys (own_props partial)) ->
  k <> "__proto__" ->
  lookup k (merged partial)
  = match lookup k (own_props partial) with
    | Some v => Some v
    | None => lookup k DEFAULT_CONFIG
    end.
Proof.
  intros Hd Hp Hk. unfold merged, resolved, Object_assign, assign1. simpl.
  destruct (lookup_assigned k DEFAULT_CONFIG (VObj []) I Hd Hk) as [Hl Hr].
  destruct (lookup_assigned k (own_props partial) _ Hr Hp Hk) as [Hl' _].
  rewrite Hl', Hl. simpl.
  destruct (lookup k (own_props partial)); [reflexivity|].
  now destruct (lookup k DEFAULT_CONFIG).
Qed.

Lemma copied_keys (ps : object) :
  NoDup (keys ps) ->
  NoDup (keys (copied ps)) /\ ~ In "__proto__" (keys (copied ps)).
Proof.
  unfold copied. induction ps as [|[k v] ps IH]; simpl; intros Hnd.
  - split; [constructor | tauto].
  - inversion Hnd as [|? ? Hnotin Hnd']; subst.
    destruct (IH Hnd') as [Hd Hn].
    destruct (k =? "__proto__") eqn:E; simpl; [now split|].
    split.
    + constructor; [|exact Hd]. intros Hin. apply Hnotin.
      unfold keys in *. apply in_map_iff in Hin. destruct Hin as ([k' v'] & <- & Hin).
      apply filter_In in Hin. apply in_map_iff. exists (k', v'). now split.
    + intros [->|Hin]; [discriminate | exact (Hn Hin)].
Qed.

(** A property named [__proto__] never becomes a property of the
    resolved configuration; it may become its prototype. *)
Lemma resolved_prototype (partial : value) :
  NoDup (keys DEFAULT_CONFIG) ->
  plain DEFAULT_CONFIG ->
  NoDup (keys (own_props partial)) ->
  lookup "__proto__" (merged partial) = None
  /\ resolved partial
     = with_prototype (prototype_from (own_props partial)) (merged partial).
Proof.
  intros Hnd Hp Hpartial.
  pose proof (resolved_shape partial Hnd Hp Hpartial) as Hshape.
  assert (Hown : merged partial
                 = fold_left (fun o kv => set (fst kv) (snd kv) o)
                     (copied (own_props partial)) DEFAULT_CONFIG).
  { unfold merged. rewrite Hshape.
    now destruct (prototype_from (own_props partial)). }
  split.
  - rewrite Hown. destruct (copied_keys _ Hpartial) as [Hd Hn].
    rewrite lookup_copied by assumption.
    rewrite (lookup_absent _ _ Hn). apply lookup_absent, Hp.
  - now rewrite Hown.
Qed.

Lemma extractConfig_parsed (search : query) (text : string) (parsed : value) :
  decodeURIComponent (options_text search) = Ok text ->
  JSON_parse text = Ok parsed ->
  nullish parsed = false ->
  extractConfig search
  = ([UpdateConfig (resolved (get parsed "config")) true],
     Ok (resolved (get parsed "config"))).
Proof.
  intros Hd Hp Hn. unfold extractConfig, options_text in *.
  rewrite Hd. simpl. rewrite Hp. simpl.
  unfold get_member. rewrite Hn. reflexivity.
Qed.

Lemma handleIframeApi_configure (data : value) :
  nullish data = false ->
  is_str (get data "action") "configure" = true ->
  handleIframeApi data
  = ([UpdateConfig (resolved (get data "payload")) false], Ok tt).
Proof.
  intros Hn Ha. unfold handleIframeApi, get_member. rewrite Hn. simpl.
  rewrite Ha. reflexivity.
Qed.

(** C1, as the code has it.  For every runtime-supplied partial [P],
    the resolved configuration is the default configuration with the
    keys of [P] laid over it, one level deep: a key of [P] other than
    [__proto__] reads as in [P] (whether the defaults know it or not),
    any other key reads as in the defaults.  A property of [P] named
    [__proto__] is not copied: [Object.assign] writes it through the
    setter of [Object.prototype], so it never becomes a property of
    the resolved configuration and, when its value is an object or
    [null], it replaces the prototype.  That configuration is what
    [extractConfig] hands to the store and returns when the query
    string carries [P] as its [config], and what the [configure]
    message hands to the store when [P] is its payload. *)
Theorem resolved_configuration_overlays_defaults (P : value) :
  NoDup (keys DEFAULT_CONFIG) ->
  NoDup (keys (own_props P)) ->
  (forall k v, k <> "__proto__" ->
               lookup k (own_props P) = Some v -> lookup k (merged P) = Some v)
  /\ (forall k, k <> "__proto__" ->
                lookup k (own_props P) = None ->
                lookup k (merged P) = lookup k DEFAULT_CONFIG)
  /\ (plain DEFAULT_CONFIG ->
      lookup "__proto__" (merged P) = None
      /\ resolved P = with_prototype (prototype_from (own_props P)) (merged P))
  /\ (forall search text parsed,
        decodeURIComponent (options_text search) = Ok text ->
        JSON_parse text = Ok parsed ->
        get_member parsed "config" = Ok P ->
        extractConfig search
        = ([UpdateConfig (resolved P) true], Ok (resolved P)))
  /\ (forall data,
        get_member data "action" = Ok (VStr "configure") ->
        get_member data "payload" = Ok P ->
        handleIframeApi data = ([UpdateConfig (resolved P) false], Ok tt)).
Proof.
  intros Hd Hp. conjuncts.
  - intros k v Hne Hk. rewrite merged_lookup by assumption. now rewrite Hk.
  - intros k Hne Hk. rewrite merged_lookup by assumption. now rewrite Hk.
  - intros Hplain. now apply resolved_prototype.
  - intros search text parsed Hdec Hparse Hcfg.
    unfold get_member in Hcfg.
    destruct (nullish parsed) eqn:Hn; [discriminate|].
    injection Hcfg as <-. now apply extractConfig_parsed with (text := text).
  - intros data Ha Hpl. unfold get_member in Ha, Hpl.
    destruct (nullish data) eqn:Hn; [discriminate|].
    injection Ha as Ha. injection Hpl as <-.
    apply handleIframeApi_configure; [assumption|]. now rewrite Ha.
Qed.

Lemma extractConfig_undecodable (search : query) (e : error) :
  decodeURIComponent (options_text search) = Throw e ->
  extractConfig search = ([], Throw e).
Proof.
  intros Hd. unfold extractConfig, options_text in *. now rewrite Hd.
Qed.

Lemma extractConfig_unparsable (search : query) (text : string) (e : error) :
  decodeURIComponent (options_text search) = Ok text ->
  JSON_parse text = Throw e ->
  extractConfig search = ([], Throw e).
Proof.
  intros Hd Hp. unfold extractConfig, options_text in *.
  rewrite Hd. simpl. now rewrite Hp.
Qed.

(** C3, as the code has it.  The resolver takes the [options] field of
    the query string, URL-decodes it, parses it and reads the nested
    [config] field.  An absent (or empty) [options] field is replaced
    by the text of an empty object before decoding, so the resolver
    then returns the defaults and does not raise.  A payload that
    fails to decode or to parse makes it raise that error, before
    anything reaches the store.  A payload that decodes and parses to
    a value other than [null] gives the merged configuration, pushed
    to the store and returned.  (For the first case the defaults are
    taken to be a plain object, as a literal gives it.) *)
Theorem extractConfig_outcomes (search : query) :
  decodeURIComponent "{}" = Ok "{}" ->
  JSON_parse "{}" = Ok (VObj []) ->
  NoDup (keys DEFAULT_CONFIG) ->
  (qtruthy (qlookup "options" search) = false ->
   plain DEFAULT_CONFIG ->
     extractConfig search
     = ([UpdateConfig (VObj DEFAULT_CONFIG) true], Ok (VObj DEFAULT_CONFIG)))
  /\ (forall e,
        qtruthy (qlookup "options" search) = true ->
        decodeURIComponent (qstring (qlookup "options" search)) = Throw e ->
        extractConfig search = ([], Throw e))
  /\ (forall text e,
        qtruthy (qlookup "options" search) = true ->
        decodeURIComponent (qstring (qlookup "options" search)) = Ok text ->
        JSON_parse text = Throw e ->
        extractConfig search = ([], Throw e))
  /\ (forall text parsed,
        qtruthy (qlookup "options" search) = true ->
        decodeURIComponent (qstring (qlookup "options" search)) = Ok text ->
        JSON_parse text = Ok parsed ->
        nullish parsed = false ->
        extractConfig search
        = ([UpdateConfig (resolved (get parsed "config")) true],
           Ok (resolved (get parsed "config")))).
Proof.
  intros Hdec Hparse Hnd. conjuncts.
  - intros Habsent Hplain.
    rewrite (extractConfig_parsed search "{}" (VObj [])).
    + now rewrite resolved_nothing.
    + unfold options_text. now rewrite Habsent.
    + exact Hparse.
    + reflexivity.
  - intros e Hpresent Hd. apply extractConfig_undecodable.
    unfold options_text. now rewrite Hpresent.
  - intros text e Hpresent Hd Hp. apply extractConfig_unparsable with (text := text).
    + unfold options_text. now rewrite Hpresent.
    + exact Hp.
  - intros text parsed Hpresent Hd Hp Hn.
    apply extractConfig_parsed with (text := text); try assumption.
    unfold options_text. now rewrite Hpresent.
Qed.

(* ================================================================== *)
(** ** Cross-frame control channel *)
(* ================================================================== *)

(** A message without a payload to take the [type] from is not
    dispatched: reading the type throws. *)
Lemma handleIframeApi_event_without_payload (data : value) :
  nullish data = false ->
  is_str (get data "action") "event" = true ->
  nullish (get data "payload") = true ->
  handleIframeApi data = ([], Throw TypeError).
Proof.
  intros Hn Ha Hp.
  assert (Hc : is_str (get data "action") "configure" = false).
  { destruct (get data "action"); try reflexivity.
    simpl in *. apply String.eqb_eq in Ha. now subst. }
  unfold handleIframeApi, get_member. rewrite Hn. simpl.
  rewrite Hc, Ha, Hp. reflexivity.
Qed.

(** C6, as the code has it.  The handler of inbound cross-frame
    messages dispatches on the [action] of the message: [configure]
    merges the payload over the defaults and hands the result to the
    store as the new configuration; [event], with a payload that is
    neither [null] nor [undefined], dispatches on the [type] of the
    payload: [show] reveals the panel, [hide] hides it, [message]
    submits the payload's [text] as an outgoing chat message, and any
    other type (a missing one too) forwards [{type, payload}] to the
    conversation data channel.  An [event] message without a payload
    is not dispatched: reading its type throws a [TypeError] and the
    store is not called; nor is a message whose data is [null] or
    [undefined]. *)
Theorem handleIframeApi_dispatch (data : value) :
  (nullish data = true -> handleIframeApi data = ([], Throw TypeError))
  /\ (nullish data = false ->
      let action := get data "action" in
      let payload := get data "payload" in
      (is_str action "configure" = true ->
       handleIframeApi data
       = ([UpdateConfig (Object_assign (VObj []) [VObj DEFAULT_CONFIG; payload]) false],
          Ok tt))
      /\ (is_str action "event" = true ->
          nullish payload = true ->
          handleIframeApi data = ([], Throw TypeError))
      /\ (is_str action "event" = true ->
          nullish payload = false ->
          let type := get payload "type" in
          (is_str type "show" = true -> handleIframeApi data = ([ShowChat], Ok tt))
          /\ (is_str type "hide" = true -> handleIframeApi data = ([HideChat], Ok tt))
          /\ (is_str type "message" = true ->
              handleIframeApi data = ([SendMessage (get payload "text")], Ok tt))
          /\ (is_str type "show" = false ->
              is_str type "hide" = false ->
              is_str type "message" = false ->
              handleIframeApi data
              = ([SendData (VObj [("type", type); ("payload", payload)])], Ok tt)))).
Proof.
  split.
  { intros Hn. unfold handleIframeApi, get_member. now rewrite Hn. }
  intros Hn action payload. conjuncts.
  - intros Ha. now apply handleIframeApi_configure.
  - intros Ha Hp. now apply handleIframeApi_event_without_payload.
  - intros Ha Hp type.
    assert (Hc : is_str action "configure" = false).
    { subst action. destruct (get data "action"); try reflexivity.
      simpl in *. apply String.eqb_eq in Ha. now subst. }
    assert (Hshape : handleIframeApi data
      = if is_str type "show" then ([ShowChat], Ok tt)
        else if is_str type "hide" then ([HideChat], Ok tt)
        else if is_str type "message" then ([SendMessage (get payload "text")], Ok tt)
        else ([SendData (VObj [("type", type); ("payload", payload)])], Ok tt)).
    { unfold handleIframeApi, get_member. rewrite Hn. simpl.
      fold action payload. rewrite Hc, Ha, Hp. simpl. fold type.
      destruct (is_str type "show"); [reflexivity|].
      destruct (is_str type "hide"); [reflexivity|].
      destruct (is_str type "message"); reflexivity. }
    conjuncts.
    + intros H. now rewrite Hshape, H.
    + intros H. rewrite Hshape, H.
      destruct (is_str type "show") eqn:E; [|reflexivity].
      destruct type; try discriminate. simpl in *.
      apply String.eqb_eq in E, H. congruence.
    + intros H. rewrite Hshape, H.
      destruct (is_str type "show") eqn:E1.
      { destruct type; try discriminate. simpl in *.
        apply String.eqb_eq in E1, H. congruence. }
      destruct (is_str type "hide") eqn:E2; [|reflexivity].
      destruct type; try discriminate. simpl in *.
      apply String.eqb_eq in E2, H. congruence.
    + intros H1 H2 H3. now rewrite Hshape, H1, H2, H3.
Qed.

Section Store.

(** Whatever the store is and however it performs the actions it
    exposes. *)
Variable store : Type.
Variable act : store -> call -> store.

(** C10. A cross-frame message whose action is neither [configure]
    nor [event] makes the handler call nothing at all, so no store
    action runs and the store (configuration and view state) is left
    as it was. *)
Theorem handleIframeApi_other_action (data : value) (s : store) :
  is_str (get data "action") "configure" = false ->
  is_str (get data "action") "event" = false ->
  calls (handleIframeApi data) = []
  /\ fold_left act (calls (handleIframeApi data)) s = s.
Proof.
  intros Hc He.
  assert (H : calls (handleIframeApi data) = []).
  { unfold handleIframeApi, get_member.
    destruct (nullish data); [reflexivity|]. simpl.
    now rewrite Hc, He. }
  split; [exact H | now rewrite H].
Qed.

End Store.

(* ================================================================== *)
(** ** Incoming socket messages *)
(* ================================================================== *)

Lemma is_visit_value (event : value) :
  nullish event = false -> is_visit event = ([], Ok (visit event)).
Proof.
  intros Hn. unfold is_visit, visit, get_member. rewrite Hn. simpl.
  destruct (truthy (get event "payload")
            && is_str (get (get event "payload") "type") "visit"); reflexivity.
Qed.

Lemma is_visit_throws (event : value) :
  nullish event = true -> is_visit event = ([], Throw TypeError).
Proof.
  intros Hn. unfold is_visit, get_member. now rewrite Hn.
Qed.

(** A value with a [type] is truthy. *)
Lemma typed_is_truthy (payload : value) (lit : string) :
  is_str (get payload "type") lit = true -> truthy payload = true.
Proof.
  destruct payload as [| |b|m e|s|items|ps|proto ps]; simpl; try discriminate; try reflexivity.
  destruct s; [discriminate | reflexivity].
Qed.

(** C8. A socket event whose payload has type [visit], or whose
    [message_type] is [visit], is dropped on entry: the handler calls
    nothing (not [addEventToConversation], not the unread counter, not
    the sound) and leaves the instance as it was. *)
Theorem visit_messages_are_ignored (w : env) (p : view) (st : web) (event : value) :
  is_str (get (get event "payload") "type") "visit" = true
  \/ is_str (get event "message_type") "visit" = true ->
  handleNewMessage w p st event = ([], Ok st).
Proof.
  intros Hv.
  assert (Hn : nullish event = false).
  { destruct event; try reflexivity; simpl in Hv; destruct Hv; discriminate. }
  assert (Hvisit : visit event = true).
  { unfold visit. destruct Hv as [Hv|Hv].
    - now rewrite (typed_is_truthy _ _ Hv), Hv.
    - rewrite Hv. apply orb_true_r. }
  unfold handleNewMessage. rewrite is_visit_value by assumption.
  simpl. now rewrite Hvisit.
Qed.

(** The calls and the outcome of [handleNewMessage] on a message that
    is not a visit. *)
Lemma handleNewMessage_shape (w : env) (p : view) (st : web) (event : value) :
  nullish event = false ->
  visit event = false ->
  handleNewMessage w p st event
  = if lacks_focus w || negb (activeView p =? "side") then
      if played st then
        ([AddEventToConversation event; IncrementUnread]
           ++ calls (handleResetUnreadCount w p), Ok st)
      else
        ([AddEventToConversation event;
          AudioPlay "/assets/modules/channel-web/notification.mp3";
          SetTimeout MIN_TIME_BETWEEN_SOUNDS;
          IncrementUnread] ++ calls (handleResetUnreadCount w p),
         Ok {| played := true; parentClass := parentClass st |})
    else
      ([AddEventToConversation event] ++ calls (handleResetUnreadCount w p), Ok st).
Proof.
  intros Hn Hv. unfold handleNewMessage. rewrite is_visit_value by assumption.
  simpl. rewrite Hv. unfold handleResetUnreadCount, playSound.
  destruct (lacks_focus w || negb (activeView p =? "side"));
    destruct (played st); destruct (has_focus w && (activeView p =? "side"));
    reflexivity.
Qed.

(* ================================================================== *)
(** ** Notification sound guard *)
(* ================================================================== *)

(** As far as the sound goes, a message either leaves everything as it
    is, or finds the latch open, plays once, closes the latch and sets
    one timer. *)
Lemma handleNewMessage_sound (now : N) (w : env) (p : view) (st : web) (event : value) :
  (filter is_sound (calls (handleNewMessage w p st event)) = []
   /\ deadlines now (calls (handleNewMessage w p st event)) = []
   /\ (outcome (handleNewMessage w p st event) = Ok st
       \/ exists e, outcome (handleNewMessage w p st event) = Throw e))
  \/ (played st = false
      /\ length (filter is_sound (calls (handleNewMessage w p st event))) = 1
      /\ deadlines now (calls (handleNewMessage w p st event))
         = [(now + MIN_TIME_BETWEEN_SOUNDS)%N]
      /\ outcome (handleNewMessage w p st event)
         = Ok {| played := true; parentClass := parentClass st |}).
Proof.
  destruct (nullish event) eqn:Hn.
  { left. unfold handleNewMessage. rewrite is_visit_throws by assumption.
    simpl. repeat split. right. now exists TypeError. }
  destruct (visit event) eqn:Hv.
  { left. unfold handleNewMessage. rewrite is_visit_value by assumption.
    simpl. rewrite Hv. simpl. repeat split. now left. }
  rewrite handleNewMessage_shape by assumption.
  unfold handleResetUnreadCount.
  destruct (lacks_focus w || negb (activeView p =? "side"));
    destruct (played st) eqn:Hp;
    destruct (has_focus w && (activeView p =? "side"));
    simpl; try (left; repeat split; now left);
    right; repeat split.
Qed.

Lemma sound_times_app (now : N) (t : list call) (later : list (N * call)) :
  sound_times (map (pair now) t ++ later)
  = map (fun _ => now) (filter is_sound t) ++ sound_times later.
Proof.
  unfold sound_times. rewrite filter_app, map_app. f_equal.
  induction t as [|c t IH]; simpl; [reflexivity|].
  destruct (is_sound c); simpl; now rewrite IH.
Qed.

(** A turn of the loop from a quiet state: silent and still quiet, or
    one sound and muted for the cooldown. *)
Lemma deliver_quiet (a : arrival) (s : sys) :
  quiet s ->
  (filter is_sound (fst (deliver a s)) = [] /\ quiet (snd (deliver a s)))
  \/ (length (filter is_sound (fst (deliver a s))) = 1
      /\ muted (at_time a + MIN_TIME_BETWEEN_SOUNDS) (snd (deliver a s))).
Proof.
  intros [Hp Ht]. unfold deliver. destruct (what a) as [event|].
  - destruct (handleNewMessage_sound (at_time a) (browser a) (props a)
                (instance s) event) as [(Hs & Hd & Ho)|(_ & Hs & Hd & Ho)];
      destruct (handleNewMessage (browser a) (props a) (instance s) event)
        as [t r]; unfold calls, outcome in *; simpl in *.
    + left. split; [exact Hs|]. unfold quiet. simpl. rewrite Ht, Hd. split; [|reflexivity].
      destruct Ho as [->|[e ->]]; exact Hp.
    + right. split; [exact Hs|]. unfold muted. simpl. rewrite Ht, Hd, Ho. now split.
  - left. rewrite Ht. simpl. now split.
Qed.

(** A turn of the loop from a muted state is silent; the state stays
    muted, unless the timer fires, which it does no earlier than due. *)
Lemma deliver_muted (a : arrival) (s : sys) (until : N) :
  muted until s ->
  filter is_sound (fst (deliver a s)) = []
  /\ (muted until (snd (deliver a s))
      \/ (quiet (snd (deliver a s)) /\ (until <= at_time a)%N)).
Proof.
  intros [Hp Ht]. unfold deliver. destruct (what a) as [event|].
  - destruct (handleNewMessage_sound (at_time a) (browser a) (props a)
                (instance s) event) as [(Hs & Hd & Ho)|(Hq & _)];
      [|congruence].
    destruct (handleNewMessage (browser a) (props a) (instance s) event)
      as [t r]; unfold calls, outcome in *; simpl in *.
    split; [exact Hs|]. left. unfold muted. simpl. rewrite Ht, Hd. split; [|reflexivity].
    destruct Ho as [->|[e ->]]; exact Hp.
  - rewrite Ht. destruct (until <=? at_time a)%N eqn:E; simpl.
    + split; [reflexivity|]. right. split; [now split|]. now apply N.leb_le.
    + split; [reflexivity|]. left. now split.
Qed.

Lemma sound_times_are_arrivals (arrivals : list arrival) (s : sys) (t : N) :
  In t (sound_times (event_loop arrivals s)) ->
  exists a, In a arrivals /\ t = at_time a.
Proof.
  revert s. induction arrivals as [|a rest IH]; intros s Hin; simpl in Hin.
  - contradiction.
  - destruct (deliver a s) as [tr s']. rewrite sound_times_app in Hin.
    apply in_app_or in Hin. destruct Hin as [Hin|Hin].
    + apply in_map_iff in Hin. destruct Hin as (_ & <- & _).
      exists a. split; [now left | reflexivity].
    + destruct (IH s' Hin) as (b & Hb & ->). exists b. split; [now right | reflexivity].
Qed.

Lemma muted_waits (arrivals : list arrival) (s : sys) (until : N) :
  StronglySorted (fun a b => (at_time a <= at_time b)%N) arrivals ->
  muted until s ->
  Forall (fun t => (until <= t)%N) (sound_times (event_loop arrivals s)).
Proof.
  revert s. induction arrivals as [|a rest IH]; intros s Hsorted Hm; simpl.
  - constructor.
  - inversion Hsorted as [|? ? Hrest Hle]; subst.
    destruct (deliver_muted a s until Hm) as [Hsilent Hnext].
    destruct (deliver a s) as [tr s']. simpl in *.
    rewrite sound_times_app, Hsilent. simpl.
    destruct Hnext as [Hm'|[_ Hdue]].
    + now apply IH.
    + apply Forall_forall. intros t Hin.
      destruct (sound_times_are_arrivals rest s' t Hin) as (b & Hb & ->).
      rewrite Forall_forall in Hle. specialize (Hle b Hb). lia.
Qed.

Lemma sounds_are_spaced (arrivals : list arrival) (s : sys) :
  StronglySorted (fun a b => (at_time a <= at_time b)%N) arrivals ->
  quiet s \/ (exists until, muted until s) ->
  spaced MIN_TIME_BETWEEN_SOUNDS (sound_times (event_loop arrivals s)).
Proof.
  revert s. induction arrivals as [|a rest IH]; intros s Hsorted Hinv; simpl.
  - constructor.
  - inversion Hsorted as [|? ? Hrest Hle]; subst.
    destruct Hinv as [Hq|[until Hm]].
    + destruct (deliver_quiet a s Hq) as [[Hsilent Hq']|[Hone Hm']];
        destruct (deliver a s) as [tr s']; simpl in *;
        rewrite sound_times_app.
      * rewrite Hsilent. simpl. apply IH; [assumption | now left].
      * destruct (filter is_sound tr) as [|c [|c' l]]; try discriminate.
        simpl. constructor.
        -- apply IH; [assumption | right; eauto].
        -- now apply muted_waits.
    + destruct (deliver_muted a s until Hm) as [Hsilent Hnext].
      destruct (deliver a s) as [tr s']. simpl in *.
      rewrite sound_times_app, Hsilent. simpl.
      apply IH; [assumption|].
      destruct Hnext as [Hm'|[Hq' _]]; [right; eauto | now left].
Qed.

(** C7. While the document lacks focus, every received message that is
    not a visit increments the unread count exactly once (and does not
    reset it).  Over any chronological sequence of messages and timer
    expiries, whatever the focus and the active view at each of them,
    any two plays of the notification sound are at least the cooldown
    apart: a burst inside one window sounds at most once. *)
Theorem unread_once_and_sound_once_per_cooldown :
  (forall w p st event,
      document_hasFocus w = Some false ->
      nullish event = false ->
      visit event = false ->
      length (filter is_increment (calls (handleNewMessage w p st event))) = 1
      /\ ~ In ResetUnread (calls (handleNewMessage w p st event)))
  /\ (forall arrivals,
        chronological arrivals ->
        spaced MIN_TIME_BETWEEN_SOUNDS (sound_times (event_loop arrivals start))).
Proof.
  split.
  - intros w p st event Hf Hn Hv. rewrite handleNewMessage_shape by assumption.
    unfold lacks_focus, handleResetUnreadCount, has_focus. rewrite Hf. simpl.
    destruct (played st); simpl; (split; [reflexivity|]);
      intros H; repeat (destruct H as [H|H]; [discriminate|]); exact H.
  - intros arrivals Hsorted. apply sounds_are_spaced.
    + apply Sorted_StronglySorted; [|exact Hsorted].
      intros a b c Hab Hbc. lia.
    + left. now split.
Qed.

(* ================================================================== *)
(** ** Calls of composed code *)
(* ================================================================== *)

Lemma calls_bind {A B} (m : M A) (f : A -> M B) :
  calls (bind m f)
  = calls m ++ match outcome m with
               | Ok a => calls (f a)
               | Throw _ => []
               end.
Proof.
  destruct m as [t [a|e]]; simpl.
  - now destruct (f a).
  - now rewrite app_nil_r.
Qed.


Lemma Forall_bind {A B} (P : call -> Prop) (m : M A) (f : A -> M B) :
  Forall P (calls m) ->
  (forall a, Forall P (calls (f a))) ->
  Forall P (calls (bind m f)).
Proof.
  intros Hm Hf. rewrite calls_bind. apply Forall_app. split; [exact Hm|].
  destruct (outcome m); [apply Hf | constructor].
Qed.

Lemma Forall_for_of (P : call -> Prop) (items : list value) (body : value -> M unit) :
  (forall x, Forall P (calls (body x))) ->
  Forall P (calls (for_of items body)).
Proof.
  intros Hb. induction items as [|x rest IH]; simpl.
  - constructor.
  - apply Forall_bind; [apply Hb | intros _; exact IH].
Qed.

(** [loadOverrides] calls the module loader and nothing else, always
    with the force flag set. *)
Lemma loadOverrides_calls (overrides : value) :
  Forall (fun c => exists module, c = LoadModuleView module true)
         (calls (loadOverrides overrides)).
Proof.
  unfold loadOverrides. apply Forall_bind.
  - unfold _values. apply Forall_bind.
    + constructor.
    + intros keys. constructor.
  - intros items. apply Forall_for_of. intros x. apply Forall_bind.
    + constructor.
    + intros module. constructor; [now exists module | constructor].
Qed.

Lemma run_sync {A} (m : M A) (k : A -> proc) (settles : list settle) :
  run (sync m k) settles
  = map Called (calls m)
    ++ match outcome m with
       | Ok a => run (k a) settles
       | Throw e => [Uncaught e]
       end.
Proof.
  destruct m as [t [a|e]]; simpl; induction t as [|c t IH]; simpl;
    try reflexivity; now rewrite IH.
Qed.

Lemma split_after_prefix {A} (x : A) (pre rest before after : list A) :
  ~ In x pre ->
  pre ++ rest = before ++ x :: after ->
  exists mid, before = pre ++ mid /\ rest = mid ++ x :: after.
Proof.
  revert before. induction pre as [|y pre IH]; intros before Hn H; simpl in *.
  - now exists before.
  - destruct before as [|b before]; simpl in H.
    + injection H as -> _. tauto.
    + injection H as <- H. destruct (IH before) as (mid & -> & ->); [tauto | exact H |].
      now exists mid.
Qed.

(* ================================================================== *)
(** ** Session bootstrap *)
(* ================================================================== *)

Lemma extractConfig_returns (search : query) (config : value) :
  outcome (extractConfig search) = Ok config ->
  extractConfig search = ([UpdateConfig config true], Ok config).
Proof.
  unfold extractConfig.
  destruct (decodeURIComponent _) as [text|e]; [|discriminate]. simpl.
  destruct (JSON_parse text) as [parsed|e]; [|discriminate]. simpl.
  destruct (get_member parsed "config") as [cfg|e]; [|discriminate]. simpl.
  intros H. injection H as <-. reflexivity.
Qed.

(** The synchronous part of the bootstrap never signals completion. *)
Lemma initialize_sync_not_completed (search : query) :
  Forall (fun c => is_completed c = false) (calls (initialize_sync search)).
Proof.
  unfold initialize_sync.
  repeat (apply Forall_bind; [repeat constructor | intros _]).
  apply Forall_bind.
  - unfold extractConfig.
    repeat (apply Forall_bind; [repeat constructor | intros ?]).
    repeat constructor.
  - intros config. apply Forall_bind.
    + destruct (truthy (get config "overrides")); [|constructor].
      eapply Forall_impl; [|apply loadOverrides_calls].
      intros c [module ->]. reflexivity.
    + intros _. destruct (truthy (get config "userId")); repeat constructor.
Qed.

Lemma initialize_sync_returns (search : query) (config : value) :
  outcome (extractConfig search) = Ok config ->
  outcome (bootstrap_overrides config) = Ok tt ->
  initialize_sync search
  = ([NewBpSocket; SetOnMessage; SetOnTyping; SetOnUserIdChanged; SocketSetup;
      UpdateConfig config true]
       ++ calls (bootstrap_overrides config) ++ bootstrap_userId config,
     Ok tt).
Proof.
  intros Hc Ho. unfold initialize_sync.
  rewrite (extractConfig_returns search config Hc). simpl.
  fold (bootstrap_overrides config).
  destruct (bootstrap_overrides config) as [t r]. simpl in *. subst r.
  unfold bootstrap_userId.
  destruct (truthy (get config "userId")); simpl; [reflexivity|].
  now rewrite app_nil_r.
Qed.

(** The events of the bootstrap after its synchronous part, for every
    way the two awaited promises may settle. *)
Lemma bootstrap_suspensions (settles : list settle) :
  let rest :=
    run (Await SocketWaitForUserId
           (Await InitializeChat
              (sync setupObserver (fun _ => Do SetLoadingCompleted Done)))) settles in
  rest = [Called SocketWaitForUserId]
  \/ rest = [Called SocketWaitForUserId; Rejected SocketWaitForUserId]
  \/ rest = [Called SocketWaitForUserId; Resumed SocketWaitForUserId;
             Called InitializeChat]
  \/ rest = [Called SocketWaitForUserId; Resumed SocketWaitForUserId;
             Called InitializeChat; Rejected InitializeChat]
  \/ rest = [Called SocketWaitForUserId; Resumed SocketWaitForUserId;
             Called InitializeChat; Resumed InitializeChat;
             Called (Observe ConfigUserId); Called (Observe ConfigOverrides);
             Called (Observe DimensionsContainer); Called SetLoadingCompleted].
Proof.
  destruct settles as [|[|] [|[|] settles]]; simpl; tauto.
Qed.

Lemma run_Do (c : call) (k : proc) (settles : list settle) :
  run (Do c k) settles = Called c :: run k settles.
Proof. reflexivity. Qed.

(** C2. On mount the bootstrap runs once.  When the configuration
    resolves and the overrides it names load, and both awaited
    promises are fulfilled, the events are, in this order: the message
    listener; the socket with its three callbacks, then its setup; the
    resolved configuration applied to the store, its overrides loaded;
    the socket asked to adopt the configured user id if there is one;
    the wait for the user id, resumed; the conversation
    initialization, resumed; the three watchers; and last the
    loading-completed signal.  However the promises settle and
    whatever the query string, the signal is given at most once, as
    the last event, and only after both suspensions have resumed. *)
Theorem bootstrap_order :
  (forall search config,
      outcome (extractConfig search) = Ok config ->
      outcome (bootstrap_overrides config) = Ok tt ->
      run (componentDidMount search) [Fulfil; Fulfil]
      = map Called
          ([AddMessageListener;
            NewBpSocket; SetOnMessage; SetOnTyping; SetOnUserIdChanged; SocketSetup;
            UpdateConfig config true]
             ++ calls (bootstrap_overrides config)
             ++ bootstrap_userId config)
          ++ [Called SocketWaitForUserId; Resumed SocketWaitForUserId;
              Called InitializeChat; Resumed InitializeChat;
              Called (Observe ConfigUserId); Called (Observe ConfigOverrides);
              Called (Observe DimensionsContainer);
              Called SetLoadingCompleted])
  /\ (forall search settles before after,
        run (componentDidMount search) settles
        = before ++ Called SetLoadingCompleted :: after ->
        In (Resumed SocketWaitForUserId) before
        /\ In (Resumed InitializeChat) before
        /\ ~ In (Called SetLoadingCompleted) before
        /\ after = []).
Proof.
  split.
  - intros search config Hc Ho. unfold componentDidMount, initialize.
    simpl. rewrite run_sync.
    rewrite (initialize_sync_returns search config Hc Ho). reflexivity.
  - intros search settles before after H.
    unfold componentDidMount, initialize in H.
    rewrite run_Do, run_sync in H.
    assert (Hpre : ~ In (Called SetLoadingCompleted)
                     (Called AddMessageListener
                        :: map Called (calls (initialize_sync search)))).
    { intros [Hin|Hin]; [discriminate|].
      apply in_map_iff in Hin. destruct Hin as (c & Hc & Hin).
      injection Hc as ->.
      pose proof (initialize_sync_not_completed search) as Hall.
      rewrite Forall_forall in Hall. specialize (Hall _ Hin). discriminate. }
    change (Called AddMessageListener
              :: map Called (calls (initialize_sync search)) ++ ?r)
      with ((Called AddMessageListener
               :: map Called (calls (initialize_sync search))) ++ r) in H.
    apply split_after_prefix in H; [|exact Hpre].
    destruct H as (mid & -> & H).
    destruct (outcome (initialize_sync search)) as [[]|e].
    + destruct (bootstrap_suspensions settles) as [E|[E|[E|[E|E]]]];
        cbv zeta in E; cbv beta in H; rewrite E in H; clear E;
        peel H mid; try (destruct mid; discriminate H).
      injection H as <-.
      repeat split.
      * apply in_or_app. right. simpl. tauto.
      * apply in_or_app. right. simpl. tauto.
      * intros Hin. apply in_app_or in Hin. destruct Hin as [Hin|Hin];
          [exact (Hpre Hin)|].
        simpl in Hin. repeat (destruct Hin as [Hin|Hin]; [discriminate|]).
        exact Hin.
    + peel H mid. destruct mid; discriminate H.
Qed.

(* ================================================================== *)
(** ** Reactive observers *)
(* ================================================================== *)

(** C4. The watcher of [userId] does nothing when the field had no
    (truthy) value before.  When it had one, the watcher asks the
    socket to adopt the new id and, once that request is fulfilled,
    re-runs the conversation initialization: the socket request is
    always the first event, and the initialization is never called
    before the request has resumed. *)
Theorem userId_watcher (data : change) :
  (truthy (oldValue data) = false ->
     forall settles, run (on_userId data) settles = [])
  /\ (truthy (oldValue data) = true ->
      run (on_userId data) [Fulfil; Fulfil]
      = [Called (SocketChangeUserId (newValue data));
         Resumed (SocketChangeUserId (newValue data));
         Called InitializeChat;
         Resumed InitializeChat]
      /\ (forall settles, exists rest,
             run (on_userId data) settles
             = Called (SocketChangeUserId (newValue data)) :: rest)
      /\ (forall settles before after,
             run (on_userId data) settles = before ++ Called InitializeChat :: after ->
             before = [Called (SocketChangeUserId (newValue data));
                       Resumed (SocketChangeUserId (newValue data))])).
Proof.
  unfold on_userId. split; intros Hold; rewrite Hold; simpl.
  - reflexivity.
  - repeat split.
    + intros settles. eauto.
    + intros settles before after H.
      destruct settles as [|[|] [|[|] settles]]; simpl in H;
        peel H before; try (destruct before; discriminate H); reflexivity.
Qed.


(** The override loader on an object whose values are objects: one
    request per value, in the order of the keys, each forcing the
    replacement. *)
Lemma for_of_loads (items : list value) :
  Forall (fun x => nullish x = false) items ->
  for_of items (fun override =>
    module <- lift (get_member override "module") ;;
    perform (LoadModuleView module true))
  = (map (fun x => LoadModuleView (get x "module") true) items, Ok tt).
Proof.
  induction 1 as [|x rest Hx _ IH]; [reflexivity|].
  cbn [for_of]. rewrite IH. unfold get_member. now rewrite Hx.
Qed.




(* ================================================================== *)
(** ** Outbound setClass *)
(* ================================================================== *)

Lemma same_class_eq (last : option string) (cls : string) :
  same_class last cls = true <-> last = Some cls.
Proof.
  destruct last as [s|]; simpl.
  - rewrite String.eqb_eq. split; congruence.
  - split; discriminate.
Qed.

Lemma setClass_value_setClass (cls : string) :
  setClass_value (setClass cls) = Some cls.
Proof. reflexivity. Qed.

(** When [window.parent] is truthy, the class the instance remembers
    is the class it last sent. *)
Lemma parentClass_is_last_sent (w : env) (passes : list view) (st : web) :
  window_parent w = true ->
  parentClass (snd (renders w passes st))
  = last_sent_after (parentClass st) (fst (renders w passes st)).
Proof.
  intros Hw. revert st. induction passes as [|p rest IH]; intros st; simpl.
  - reflexivity.
  - specialize (IH (snd (render w p st))).
    destruct (render w p st) as [t st1] eqn:Er. simpl in IH.
    destruct (renders w rest st1) as [t' st2]. simpl in *.
    unfold last_sent_after in *. rewrite fold_left_app, IH. f_equal.
    unfold render in Er. rewrite Hw in Er.
    destruct (isReady p); simpl in Er.
    + destruct (same_class (parentClass st) (class_of p)); simpl in Er;
        injection Er as <- <-; reflexivity.
    + injection Er as <- <-. reflexivity.
Qed.

Lemma renders_without_parent (w : env) (passes : list view) (st : web) :
  window_parent w = false -> fst (renders w passes st) = [].
Proof.
  intros Hw. revert st. induction passes as [|p rest IH]; intros st; simpl.
  - reflexivity.
  - specialize (IH (snd (render w p st))).
    destruct (render w p st) as [t st1] eqn:Er. simpl in IH.
    destruct (renders w rest st1) as [t' st2]. simpl in *. subst t'.
    unfold render in Er. rewrite Hw in Er.
    destruct (isReady p); simpl in Er.
    + destruct (same_class (parentClass st) (class_of p)); simpl in Er;
        injection Er as <- _; reflexivity.
    + injection Er as <- _. reflexivity.
Qed.

(** C9, as the code has it.  After any number of render passes of a
    component whose [window.parent] is truthy (inside a frame; on a
    top-level page it is the window itself), a pass in which the view
    is ready sends [setClass] if and only if the class it computes
    differs, as a string, from the class last sent, and sends nothing
    otherwise; so repeated passes with an unchanged class send nothing
    more.  A pass in which the view is not ready computes and sends
    nothing; a component whose [window.parent] is falsy never sends
    anything. *)
Theorem setClass_on_change (w : env) (passes : list view) (p : view) :
  let sent := fst (renders w passes initial) in
  let st := snd (renders w passes initial) in
  (window_parent w = true ->
   isReady p = true ->
   (fst (render w p st) = [setClass (class_of p)]
    <-> last_sent sent <> Some (class_of p))
   /\ (fst (render w p st) = [] <-> last_sent sent = Some (class_of p)))
  /\ (isReady p = false -> render w p st = ([], st))
  /\ (window_parent w = false ->
      sent = [] /\ fst (render w p st) = []).
Proof.
  intros sent st.
  assert (Hinv : window_parent w = true -> parentClass st = last_sent sent).
  { intros Hw. exact (parentClass_is_last_sent w passes initial Hw). }
  split; [|split].
  - intros Hw Hr. specialize (Hinv Hw).
    assert (Hshape : fst (render w p st)
                     = if same_class (last_sent sent) (class_of p)
                       then [] else [setClass (class_of p)]).
    { unfold render. rewrite Hr, Hw, Hinv. simpl.
      now destruct (same_class (last_sent sent) (class_of p)). }
    rewrite Hshape.
    destruct (same_class (last_sent sent) (class_of p)) eqn:E.
    + apply same_class_eq in E. repeat split; intros; congruence.
    + assert (Hne : last_sent sent <> Some (class_of p)).
      { intros Heq. apply same_class_eq in Heq. congruence. }
      repeat split; intros; try congruence; try discriminate.
  - intros Hr. unfold render. now rewrite Hr.
  - intros Hw. split.
    + now apply renders_without_parent.
    + unfold render. rewrite Hw.
      destruct (isReady p); simpl; [|reflexivity].
      now destruct (same_class (parentClass st) (class_of p)).
Qed.

(* ================================================================== *)
(** ** Further properties: configuration *)
(* ================================================================== *)

Lemma extractConfig_throws (search : query) (e : error) :
  outcome (extractConfig search) = Throw e ->
  extractConfig search = ([], Throw e).
Proof.
  unfold extractConfig.
  destruct (decodeURIComponent _) as [text|e1]; simpl.
  - destruct (JSON_parse text) as [parsed|e2]; simpl.
    + destruct (get_member parsed "config") as [cfg|e3]; simpl.
      * discriminate.
      * intros H. now injection H as ->.
    + intros H. now injection H as ->.
  - intros H. now injection H as ->.
Qed.














(** X3. What the payload may hold instead of a configuration.  When it
    parses to [null], reading its [config] throws a [TypeError] and the
    store is not touched.  When it parses to anything else and has no
    [config] to copy from (the field is missing, [null], a number, a
    boolean, empty), the resolved configuration is exactly the default
    one (the defaults being a plain object: an object literal, in the
    order of [Object.keys] and with no own [__proto__] property). *)
Theorem extractConfig_without_config (search : query) (text : string) (parsed : value) :
  decodeURIComponent (options_text search) = Ok text ->
  JSON_parse text = Ok parsed ->
  NoDup (keys DEFAULT_CONFIG) ->
  (nullish parsed = true -> extractConfig search = ([], Throw TypeError))
  /\ (nullish parsed = false ->
      own_props (get parsed "config") = [] ->
      plain DEFAULT_CONFIG ->
      extractConfig search
      = ([UpdateConfig (VObj DEFAULT_CONFIG) true], Ok (VObj DEFAULT_CONFIG))).
Proof.
  intros Hd Hp Hnd. split.
  - intros Hn. unfold extractConfig, options_text in *.
    rewrite Hd. simpl. rewrite Hp. simpl. unfold get_member. now rewrite Hn.
  - intros Hn Hempty Hplain.
    rewrite (extractConfig_parsed search text parsed Hd Hp Hn).
    now rewrite resolved_nothing.
Qed.

(* ================================================================== *)
(** ** Further properties: session bootstrap *)
(* ================================================================== *)

Lemma initialize_sync_setup (search : query) :
  Forall (fun c => is_setup c = true) (calls (initialize_sync search)).
Proof.
  unfold initialize_sync.
  repeat (apply Forall_bind; [repeat constructor | intros _]).
  apply Forall_bind.
  - unfold extractConfig.
    repeat (apply Forall_bind; [repeat constructor | intros ?]).
    repeat constructor.
  - intros config. apply Forall_bind.
    + destruct (truthy (get config "overrides")); [|constructor].
      eapply Forall_impl; [|apply loadOverrides_calls].
      intros c [module ->]. reflexivity.
    + intros _. destruct (truthy (get config "userId")); repeat constructor.
Qed.

(** X4. A query string whose configuration cannot be resolved ends the
    bootstrap there, however the promises would settle: the message
    listener is registered and the socket is set up, the error goes
    uncaught, and nothing else happens: the store gets no
    configuration, no promise is awaited, no watcher is installed and
    loading is never reported complete. *)
Theorem bootstrap_stops_on_bad_configuration
        (search : query) (e : error) (settles : list settle) :
  outcome (extractConfig search) = Throw e ->
  run (componentDidMount search) settles = map Called socket_setup ++ [Uncaught e].
Proof.
  intros He. unfold componentDidMount, initialize.
  rewrite run_Do, run_sync. unfold initialize_sync.
  rewrite (extractConfig_throws search e He). reflexivity.
Qed.

(** X5. When the configuration resolves but one of its overrides
    cannot be loaded, the bootstrap ends with that error uncaught
    after the configuration has reached the store and the overrides
    before the faulty one have been requested; the socket is not asked
    to adopt the configured user id and nothing is awaited. *)
Theorem bootstrap_stops_on_bad_override
        (search : query) (config : value) (e : error) (settles : list settle) :
  outcome (extractConfig search) = Ok config ->
  outcome (bootstrap_overrides config) = Throw e ->
  run (componentDidMount search) settles
  = map Called (socket_setup
                  ++ [UpdateConfig config true]
                  ++ calls (bootstrap_overrides config))
    ++ [Uncaught e]
  /\ Forall (fun c => exists module, c = LoadModuleView module true)
            (calls (bootstrap_overrides config)).
Proof.
  intros Hc Ho. split.
  - unfold componentDidMount, initialize.
    rewrite run_Do, run_sync. unfold initialize_sync.
    rewrite (extractConfig_returns search config Hc). simpl.
    fold (bootstrap_overrides config).
    destruct (bootstrap_overrides config) as [t r]. simpl in *. subst r.
    reflexivity.
  - unfold bootstrap_overrides.
    destruct (truthy (get config "overrides")); [|constructor].
    apply loadOverrides_calls.
Qed.

(** X6. Whatever the query string and however the promises settle:
    the conversation is initialized only after the socket has reported
    a user id, and a watcher is installed only after both suspensions
    have resumed, in which case loading is then reported complete. *)
Theorem bootstrap_waits (search : query) (settles : list settle)
        (before after : list event) :
  (run (componentDidMount search) settles = before ++ Called InitializeChat :: after ->
   In (Resumed SocketWaitForUserId) before)
  /\ (forall field,
        run (componentDidMount search) settles
        = before ++ Called (Observe field) :: after ->
        In (Resumed SocketWaitForUserId) before
        /\ In (Resumed InitializeChat) before
        /\ In (Called SetLoadingCompleted) after).
Proof.
  assert (Hpre : forall c, is_setup c = false -> c <> AddMessageListener ->
            ~ In (Called c)
                (Called AddMessageListener
                   :: map Called (calls (initialize_sync search)))).
  { intros c Hc Hne [Hin|Hin].
    - injection Hin as <-. now apply Hne.
    - apply in_map_iff in Hin. destruct Hin as (c' & Heq & Hin).
      injection Heq as ->.
      pose proof (initialize_sync_setup search) as Hall.
      rewrite Forall_forall in Hall. specialize (Hall _ Hin). congruence. }
  assert (Hrun : run (componentDidMount search) settles
                 = (Called AddMessageListener
                      :: map Called (calls (initialize_sync search)))
                   ++ match outcome (initialize_sync search) with
                      | Ok _ =>
                          run (Await SocketWaitForUserId
                                 (Await InitializeChat
                                    (sync setupObserver
                                       (fun _ => Do SetLoadingCompleted Done))))
                              settles
                      | Throw e => [Uncaught e]
                      end).
  { unfold componentDidMount, initialize. rewrite run_Do, run_sync.
    now destruct (outcome (initialize_sync search)). }
  split.
  - intros H. rewrite Hrun in H.
    apply split_after_prefix in H; [|now apply Hpre].
    destruct H as (mid & -> & H).
    destruct (outcome (initialize_sync search)) as [[]|e].
    + destruct (bootstrap_suspensions settles) as [E|[E|[E|[E|E]]]];
        cbv zeta in E; rewrite E in H; clear E;
        peel H mid; try (destruct mid; discriminate H);
        apply in_or_app; right; simpl; tauto.
    + peel H mid. destruct mid; discriminate H.
  - intros field H. rewrite Hrun in H.
    apply split_after_prefix in H; [|now apply Hpre].
    destruct H as (mid & -> & H).
    destruct (outcome (initialize_sync search)) as [[]|e].
    + destruct (bootstrap_suspensions settles) as [E|[E|[E|[E|E]]]];
        cbv zeta in E; rewrite E in H; clear E;
        peel H mid; try (destruct mid; discriminate H);
        injection H as _ <-;
        (split; [apply in_or_app; right; simpl; tauto|]);
        (split; [apply in_or_app; right; simpl; tauto|]);
        simpl; tauto.
    + peel H mid. destruct mid; discriminate H.
Qed.

(* ================================================================== *)
(** ** Further properties: override loader and watchers *)
(* ================================================================== *)

Lemma for_of_stops (good rest : list value) (bad : value) :
  Forall (fun x => nullish x = false) good ->
  nullish bad = true ->
  for_of (good ++ bad :: rest) (fun override =>
    module <- lift (get_member override "module") ;;
    perform (LoadModuleView module true))
  = (map (fun x => LoadModuleView (get x "module") true) good, Throw TypeError).
Proof.
  intros Hgood Hbad. induction Hgood as [|x good Hx _ IH].
  - simpl. unfold get_member. now rewrite Hbad.
  - cbn [for_of app]. rewrite IH. unfold get_member. now rewrite Hx.
Qed.

(** X8. The override loader stops at the first override that is
    [null] or [undefined]: the overrides before it have been
    requested, in order, reading its [module] throws a [TypeError],
    and the overrides after it are never requested. *)
Theorem loadOverrides_stops_at_null
        (overrides : value) (good rest : list value) (bad : value) :
  nullish overrides = false ->
  map (get overrides) (keys (own_props overrides)) = good ++ bad :: rest ->
  Forall (fun x => nullish x = false) good ->
  nullish bad = true ->
  loadOverrides overrides
  = (map (fun x => LoadModuleView (get x "module") true) good, Throw TypeError).
Proof.
  intros Hn Hvalues Hgood Hbad.
  unfold loadOverrides, _values, Object_keys. rewrite Hn. simpl.
  unfold keys in Hvalues. rewrite Hvalues.
  now rewrite for_of_stops.
Qed.



(** X10. Over any sequence of changes of the container dimension, the
    watcher reports to [window.parent] exactly the truthy new values,
    in order, each as a [setWidth] message for any origin; values that
    are falsy (a width of 0, an empty string, [undefined]) are not
    reported, and when [window.parent] is falsy nothing is. *)
Theorem container_reports_truthy_values (w : env) (changes : list change) :
  container_reports w changes
  = if window_parent w
    then map setWidth (filter truthy (map newValue changes))
    else [].
Proof.
  unfold container_reports. induction changes as [|data rest IH]; simpl.
  - now destruct (window_parent w).
  - rewrite IH. unfold on_container.
    destruct (window_parent w); destruct (truthy (newValue data)); reflexivity.
Qed.

(* ================================================================== *)
(** ** Further properties: incoming messages and the unread count *)
(* ================================================================== *)

(** X11. A socket event that is [null] or [undefined] makes the
    handler throw a [TypeError] before it calls anything.  Every other
    event that is not a visit is handed to the conversation first, and
    exactly once, whatever the focus, the active view and the state of
    the sound latch. *)
Theorem handleNewMessage_adds_first (w : env) (p : view) (st : web) (event : value) :
  (nullish event = true ->
   handleNewMessage w p st event = ([], Throw TypeError))
  /\ (nullish event = false ->
      visit event = false ->
      exists rest st',
        handleNewMessage w p st event
        = (AddEventToConversation event :: rest, Ok st')
        /\ filter is_added rest = []).
Proof.
  split.
  - intros Hn. unfold handleNewMessage. now rewrite is_visit_throws.
  - intros Hn Hv. rewrite handleNewMessage_shape by assumption.
    unfold handleResetUnreadCount.
    destruct (lacks_focus w || negb (activeView p =? "side"));
      destruct (played st);
      destruct (has_focus w && (activeView p =? "side"));
      simpl; eauto.
Qed.

(** X12. For a message that is not a visit, the unread count is either
    incremented or reset, never both.  With the focus on the document
    and the side panel active, the count is reset and nothing sounds.
    When the message is unattended the count is incremented once and
    not reset.  When the browser has no [document.hasFocus] and the
    side panel is active, the count is left alone. *)
Theorem unread_incremented_or_reset (w : env) (p : view) (st : web) (event : value) :
  nullish event = false ->
  visit event = false ->
  (has_focus w = true -> activeView p = "side" ->
   handleNewMessage w p st event
   = ([AddEventToConversation event; ResetUnread], Ok st))
  /\ (unattended w p = true ->
      length (filter is_increment (calls (handleNewMessage w p st event))) = 1
      /\ filter is_reset (calls (handleNewMessage w p st event)) = [])
  /\ (document_hasFocus w = None -> activeView p = "side" ->
      handleNewMessage w p st event = ([AddEventToConversation event], Ok st))
  /\ (filter is_increment (calls (handleNewMessage w p st event)) = []
      \/ filter is_reset (calls (handleNewMessage w p st event)) = []).
Proof.
  intros Hn Hv. rewrite handleNewMessage_shape by assumption.
  unfold unattended, handleResetUnreadCount, lacks_focus, has_focus.
  repeat split.
  - intros Hf Hside. rewrite Hside.
    destruct (document_hasFocus w) as [[|]|]; try discriminate. reflexivity.
  - destruct (document_hasFocus w) as [[|]|]; simpl in *;
      destruct (activeView p =? "side"); simpl in *; try discriminate;
      destruct (played st); reflexivity.
  - destruct (document_hasFocus w) as [[|]|]; simpl in *;
      destruct (activeView p =? "side"); simpl in *; try discriminate;
      destruct (played st); reflexivity.
  - intros Hf Hside. rewrite Hf, Hside. reflexivity.
  - destruct (document_hasFocus w) as [[|]|]; simpl;
      destruct (activeView p =? "side"); simpl;
      destruct (played st); simpl; tauto.
Qed.

(* ================================================================== *)
(** ** Further properties: the sound latch over time *)
(* ================================================================== *)

Lemma event_loop_end_invariant (arrivals : list arrival) (s : sys) :
  quiet s \/ (exists until, muted until s) ->
  quiet (event_loop_end arrivals s)
  \/ (exists until, muted until (event_loop_end arrivals s)).
Proof.
  revert s. induction arrivals as [|a rest IH]; intros s Hinv; simpl.
  - exact Hinv.
  - apply IH. destruct Hinv as [Hq|[until Hm]].
    + destruct (deliver_quiet a s Hq) as [[_ Hq']|[_ Hm']]; [now left | right; eauto].
    + destruct (deliver_muted a s until Hm) as [_ [Hm'|[Hq' _]]];
        [right; eauto | now left].
Qed.

(** X13. Timers do not pile up.  After any sequence of messages and
    timer expiries, in any order and at any times, at most one timer
    is pending, and one is pending exactly when the latch is closed. *)
Theorem one_timer_at_most (arrivals : list arrival) :
  let s := event_loop_end arrivals start in
  length (timers s) <= 1
  /\ (played (instance s) = true <-> timers s <> []).
Proof.
  intros s.
  destruct (event_loop_end_invariant arrivals start) as [[Hp Ht]|[until [Hp Ht]]].
  - left. now split.
  - fold s in Hp, Ht. rewrite Hp, Ht. simpl. split; [lia|].
    split; [discriminate | intros H; now contradiction H].
  - fold s in Hp, Ht. rewrite Hp, Ht. simpl. split; [lia|].
    split; [discriminate | reflexivity].
Qed.

Lemma sounds_bounded_by_timers (arrivals : list arrival) (s : sys) :
  (quiet s ->
   length (sound_times (event_loop arrivals s))
   <= 1 + length (filter is_timer arrivals))
  /\ (forall until, muted until s ->
      length (sound_times (event_loop arrivals s))
      <= length (filter is_timer arrivals)).
Proof.
  revert s. induction arrivals as [|a rest IH]; intros s; simpl.
  - split; intros; simpl; lia.
  - split.
    + intros Hq.
      destruct (deliver_quiet a s Hq) as [[Hsilent Hq']|[Hone Hm']];
        destruct (deliver a s) as [tr s']; simpl in *;
        rewrite sound_times_app, length_app, length_map.
      * rewrite Hsilent. simpl.
        pose proof (proj1 (IH s') Hq'). destruct (is_timer a); simpl; lia.
      * rewrite Hone.
        pose proof (proj2 (IH s') _ Hm'). destruct (is_timer a); simpl; lia.
    + intros due Hm.
      assert (Htimer : is_timer a = true \/ snd (deliver a s) = s
                                           \/ muted due (snd (deliver a s))).
      { destruct (deliver_muted a s due Hm) as [_ [Hm'|[Hq' _]]]; [tauto|].
        left. unfold is_timer. unfold deliver in Hq'.
        destruct (what a); [|reflexivity].
        destruct Hm as [Hp Ht]. destruct Hq' as [_ Ht'].
        destruct (handleNewMessage _ _ _ _) as [t r]. simpl in Ht'.
        rewrite Ht in Ht'. discriminate. }
      destruct (deliver_muted a s due Hm) as [Hsilent Hnext].
      destruct (deliver a s) as [tr s']; simpl in *.
      rewrite sound_times_app, length_app, length_map, Hsilent. simpl.
      destruct Hnext as [Hm'|[Hq' _]].
      * pose proof (proj2 (IH s') _ Hm'). destruct (is_timer a); simpl; lia.
      * destruct Htimer as [Ht|[->|Hm']].
        -- rewrite Ht. simpl. pose proof (proj1 (IH s') Hq'). lia.
        -- destruct Hq' as [Hp' _]. destruct Hm as [Hp _]. congruence.
        -- destruct Hq' as [Hp' _]. destruct Hm' as [Hp _]. congruence.
Qed.

(** X14. The sound never plays more often than the timer lets it:
    over any sequence of messages and timer expiries, in any order and
    at any times, the number of plays is at most one more than the
    number of timer expiries. *)
Theorem sounds_at_most_one_more_than_expiries (arrivals : list arrival) :
  length (sound_times (event_loop arrivals start))
  <= 1 + length (filter is_timer arrivals).
Proof.
  apply sounds_bounded_by_timers. now split.
Qed.

(** X15. The latch does not swallow the first sound.  With the latch
    open and no timer pending, as at the start, an unattended message
    that is not a visit plays the sound at once, whatever arrives
    later. *)
Theorem unattended_message_sounds_when_quiet
        (a : arrival) (event : value) (later : list arrival) (s : sys) :
  quiet s ->
  what a = Message event ->
  nullish event = false ->
  visit event = false ->
  unattended (browser a) (props a) = true ->
  exists times,
    sound_times (event_loop (a :: later) s) = at_time a :: times.
Proof.
  intros [Hp Ht] Hwhat Hn Hv Hu. simpl. unfold deliver. rewrite Hwhat.
  rewrite handleNewMessage_shape by assumption.
  unfold unattended in Hu. rewrite Hu, Hp.
  rewrite sound_times_app. simpl.
  unfold handleResetUnreadCount.
  destruct (has_focus (browser a) && (activeView (props a) =? "side"));
    simpl; eauto.
Qed.

(* ================================================================== *)
(** ** Further properties: render and the control channel *)
(* ================================================================== *)

(** X16. Rendering is idempotent: a second pass with the same props
    sends nothing and leaves the instance as the first pass left it,
    ready or not, whether [window.parent] is truthy or not. *)
Theorem render_twice (w : env) (p : view) (st : web) :
  render w p (snd (render w p st)) = ([], snd (render w p st)).
Proof.
  unfold render. destruct (isReady p); simpl; [|reflexivity].
  destruct (same_class (parentClass st) (class_of p)) eqn:E; simpl.
  - now rewrite E.
  - now rewrite String.eqb_refl.
Qed.


(** X18. A [configure] message without a payload (or with a payload
    that has nothing to copy from) resets the configuration of the
    store to the defaults (a plain object: an object literal): what an
    earlier [configure] message set is not kept. *)
Theorem configure_without_payload_resets (data : value) :
  NoDup (keys DEFAULT_CONFIG) ->
  plain DEFAULT_CONFIG ->
  nullish data = false ->
  is_str (get data "action") "configure" = true ->
  own_props (get data "payload") = [] ->
  handleIframeApi data = ([UpdateConfig (VObj DEFAULT_CONFIG) false], Ok tt).
Proof.
  intros Hnd Hplain Hn Ha Hp.
  rewrite handleIframeApi_configure by assumption.
  now rewrite resolved_nothing.
Qed.

Lemma event_loop_cons (a : arrival) (rest : list arrival) (s : sys) :
  event_loop (a :: rest) s
  = map (pair (at_time a)) (fst (deliver a s))
    ++ event_loop rest (snd (deliver a s)).
Proof. simpl. now destruct (deliver a s). Qed.

(** The sound of one unattended message, by the state of the latch. *)
Lemma deliver_unattended (a : arrival) (event : value) (s : sys) :
  what a = Message event ->
  nullish event = false ->
  visit event = false ->
  unattended (browser a) (props a) = true ->
  length (filter is_sound (fst (deliver a s)))
  = if played (instance s) then 0 else 1.
Proof.
  intros Hwhat Hn Hv Hu. unfold deliver. rewrite Hwhat.
  rewrite handleNewMessage_shape by assumption.
  unfold unattended in Hu. rewrite Hu. unfold handleResetUnreadCount.
  destruct (played (instance s));
    now destruct (has_focus (browser a) && (activeView (props a) =? "side")).
Qed.

(** X19. The latch reopens when its timer fires, and not before.
    With the latch closed, an expiry that comes before the deadline
    changes nothing and the next unattended message stays silent; an
    expiry at or after the deadline reopens the latch and the next
    unattended message sounds. *)
Theorem latch_reopens_at_deadline
        (tick a : arrival) (event : value) (s : sys) (due : N) :
  muted due s ->
  what tick = TimerFires ->
  what a = Message event ->
  nullish event = false ->
  visit event = false ->
  unattended (browser a) (props a) = true ->
  ((at_time tick < due)%N -> sound_times (event_loop [tick; a] s) = [])
  /\ ((due <= at_time tick)%N -> sound_times (event_loop [tick; a] s) = [at_time a]).
Proof.
  intros [Hp Ht] Htick Hwhat Hn Hv Hu.
  pose proof (fun s' => deliver_unattended a event s' Hwhat Hn Hv Hu) as Hsound.
  split; intros Hdue;
    rewrite event_loop_cons, sound_times_app, event_loop_cons, sound_times_app;
    unfold deliver at 1 3; rewrite Htick, Ht; simpl.
  - apply N.leb_gt in Hdue. rewrite Hdue. simpl.
    specialize (Hsound s). rewrite Hp in Hsound.
    destruct (filter is_sound (fst (deliver a s))); [reflexivity | discriminate].
  - apply N.leb_le in Hdue. rewrite Hdue. simpl.
    specialize (Hsound {| instance := sound_timer (instance s); timers := [] |}).
    simpl in Hsound.
    destruct (filter is_sound _) as [|c [|c' l]]; try discriminate. reflexivity.
Qed.

Lemma renders_not_ready (w : env) (passes : list view) (st : web) :
  Forall (fun p => isReady p = false) passes ->
  renders w passes st = ([], st).
Proof.
  induction 1 as [|p rest Hp _ IH]; simpl; [reflexivity|].
  unfold render at 1. rewrite Hp. simpl. now rewrite IH.
Qed.

(** X20. When [window.parent] is truthy, the first render pass in
    which the view is ready always sends its class to it, however many passes
    came before it while the view was not ready; those passes send
    nothing. *)
Theorem first_ready_render_sends_class (w : env) (passes : list view) (p : view) :
  window_parent w = true ->
  Forall (fun q => isReady q = false) passes ->
  isReady p = true ->
  renders w (passes ++ [p]) initial
  = ([setClass (class_of p)], {| played := false; parentClass := Some (class_of p) |}).
Proof.
  intros Hw Hnot Hr. induction Hnot as [|q rest Hq _ IH]; simpl.
  - unfold render. now rewrite Hr, Hw.
  - unfold render at 1. rewrite Hq. simpl. now rewrite IH.
Qed.

(* ================================================================== *)
(** ** Further properties: the values of an object *)
(* ================================================================== *)

Lemma string_of_nat_inj (n m : nat) :
  string_of_nat n = string_of_nat m -> n = m.
Proof.
  unfold string_of_nat. intros H.
  apply (f_equal NilEmpty.uint_of_string) in H.
  rewrite !NilEmpty.usu in H. injection H as H.
  rewrite <- (DecimalNat.Unsigned.of_to n), <- (DecimalNat.Unsigned.of_to m).
  now rewrite H.
Qed.

Lemma string_of_nat_not_length (n : nat) :
  (string_of_nat n =? "length") = false.
Proof.
  apply String.eqb_neq. unfold string_of_nat. intros H.
  apply (f_equal NilEmpty.uint_of_string) in H.
  rewrite NilEmpty.usu in H. discriminate H.
Qed.

Lemma lookup_index (i : nat) (before after : list value) (v : value) :
  lookup (string_of_nat (i + length before)) (index_from i (before ++ v :: after))
  = Some v.
Proof.
  revert i. induction before as [|x before IH]; intros i; simpl.
  - rewrite Nat.add_0_r. now rewrite String.eqb_refl.
  - destruct (string_of_nat i =? string_of_nat (i + S (length before))) eqn:E.
    + apply String.eqb_eq, string_of_nat_inj in E. lia.
    + replace (i + S (length before)) with (S i + length before) by lia. apply IH.
Qed.

Lemma values_of_items (before items : list value) :
  map (get (VArr (before ++ items)))
      (keys (index_from (length before) items))
  = items.
Proof.
  revert before. induction items as [|v items IH]; intros before; simpl.
  - reflexivity.
  - f_equal.
    + rewrite string_of_nat_not_length. unfold own_or_undefined.
      pose proof (lookup_index 0 before items v) as H. simpl in H. now rewrite H.
    + specialize (IH (before ++ [v])).
      rewrite <- app_assoc, length_app in IH. simpl in IH.
      rewrite Nat.add_1_r in IH. exact IH.
Qed.

Lemma values_of_props (before ps : object) :
  NoDup (keys (before ++ ps)) ->
  map (get (VObj (before ++ ps))) (keys ps) = map snd ps.
Proof.
  revert before. induction ps as [|[k v] ps IH]; intros before Hnd; simpl.
  - reflexivity.
  - f_equal.
    + assert (Hk : lookup k (before ++ (k, v) :: ps) = Some v).
      { clear IH. induction before as [|[k' v'] before IHb]; simpl.
        - now rewrite String.eqb_refl.
        - simpl in Hnd. inversion Hnd as [|? ? Hnotin Hnd']; subst.
          destruct (k' =? k) eqn:E.
          + apply String.eqb_eq in E. subst k'. exfalso. apply Hnotin.
            unfold keys. rewrite map_app. apply in_or_app. right. now left.
          + now apply IHb. }
      unfold own_or_undefined. now rewrite Hk.
    + specialize (IH (before ++ [(k, v)])). rewrite <- app_assoc in IH.
      now apply IH.
Qed.

Lemma values_round_trip :
  (forall ps, NoDup (keys ps) -> _values (VObj ps) = ([], Ok (map snd ps)))
  /\ (forall items, _values (VArr items) = ([], Ok items)).
Proof.
  split.
  - intros ps Hnd. pose proof (values_of_props [] ps Hnd) as H.
    unfold _values, Object_keys, keys in H |- *. simpl in H |- *. now rewrite H.
  - intros items. pose proof (values_of_items [] items) as H.
    unfold _values, Object_keys, keys in H |- *. simpl in H |- *. now rewrite H.
Qed.

(** X21. [_values] gives back what an object holds: the values of its
    properties in the order of its keys, and for an array its items in
    order; on [null] and [undefined] it throws a [TypeError].  It calls
    nothing. *)
Theorem _values_in_order :
  (forall ps, NoDup (keys ps) -> _values (VObj ps) = ([], Ok (map snd ps)))
  /\ (forall items, _values (VArr items) = ([], Ok items))
  /\ (forall v, nullish v = true -> _values v = ([], Throw TypeError)).
Proof.
  conjuncts.
  - apply values_round_trip.
  - apply values_round_trip.
  - intros v Hv. unfold _values, Object_keys. now rewrite Hv.
Qed.

(** X7. Given an object whose values are all objects (or anything but
    [null] and [undefined]), the override loader requests the module
    named by each value, one request per value, in the order of the
    keys, each with the force flag set, and returns. *)
Theorem loadOverrides_requests_in_order (ps : object) :
  NoDup (keys ps) ->
  Forall (fun x => nullish x = false) (map snd ps) ->
  loadOverrides (VObj ps)
  = (map (fun x => LoadModuleView (get x "module") true) (map snd ps), Ok tt).
Proof.
  intros Hnd Hall. unfold loadOverrides.
  rewrite (proj1 (values_round_trip) ps Hnd).
  unfold bind at 1. cbv beta iota.
  rewrite (for_of_loads (map snd ps) Hall). reflexivity.
Qed.
End Web.

(* ================================================================== *)
(** ** The component on the sample inputs *)
(* ================================================================== *)

(** C1 on a sample: the partial [{userId: 'u1', theme: 'dark'}] over
    the sample defaults, through the query string and through a
    [configure] message. *)
Lemma resolved_configuration_overlays_defaults_witness :
  NoDup (keys Sample.defaults)
  /\ NoDup (keys (own_props Sample.partial_user))
  /\ plain Sample.defaults
  /\ lookup "userId" (merged Sample.defaults Sample.partial_user) = Some (VStr "u1")
  /\ lookup "theme" (merged Sample.defaults Sample.partial_user) = Some (VStr "dark")
  /\ lookup "locale" (merged Sample.defaults Sample.partial_user)
     = lookup "locale" Sample.defaults
  /\ lookup "__proto__" (merged Sample.defaults Sample.partial_user) = None
  /\ extractConfig Ref.decodeURIComponent Ref.JSON_parse Sample.defaults
       Sample.search_user
     = ([UpdateConfig (resolved Sample.defaults Sample.partial_user) true],
        Ok (resolved Sample.defaults Sample.partial_user))
  /\ handleIframeApi Sample.defaults
       (VObj [("action", VStr "configure"); ("payload", Sample.partial_user)])
     = ([UpdateConfig (resolved Sample.defaults Sample.partial_user) false],
        Ok tt).
Proof.
  assert (Hd : NoDup (keys Sample.defaults)) by distinct_keys.
  assert (Hp : NoDup (keys (own_props Sample.partial_user))) by distinct_keys.
  assert (Hplain : plain Sample.defaults) by plain_object.
  destruct (resolved_configuration_overlays_defaults
              Ref.decodeURIComponent Ref.JSON_parse Sample.defaults
              Sample.partial_user Hd Hp)
    as (Hin & Hout & Hproto & Hquery & Hmessage).
  conjuncts; try assumption.
  - apply Hin; [discriminate | reflexivity].
  - apply Hin; [discriminate | reflexivity].
  - apply Hout; [discriminate | reflexivity].
  - apply (Hproto Hplain).
  - eapply Hquery.
    + vm_compute. reflexivity.
    + vm_compute. reflexivity.
    + reflexivity.
  - apply Hmessage; reflexivity.
Defined.

(** C1 as stated fails: a partial may have an own property named
    [__proto__] (such is the object that [JSON.parse] makes of the
    sample query string), and that key does not take the value it has
    in the partial.  The resolved configuration has no such property:
    with the number 5 for its value the write is dropped, and the
    store is handed the defaults with the other key laid over
    them. *)
Lemma own_proto_key_is_not_overlaid :
  outcome (x <- lift (Ref.decodeURIComponent (options_text More.search_proto)) ;;
           parsed <- lift (Ref.JSON_parse x) ;;
           lift (get_member parsed "config"))
  = Ok More.partial_proto
  /\ lookup "__proto__" (own_props More.partial_proto) = Some (VNum 5 0)
  /\ lookup "__proto__" (merged Sample.defaults More.partial_proto) = None
  /\ extractConfig Ref.decodeURIComponent Ref.JSON_parse Sample.defaults
       More.search_proto
     = ([UpdateConfig (VObj (Sample.defaults ++ [("theme", VStr "dark")])) true],
        Ok (VObj (Sample.defaults ++ [("theme", VStr "dark")])))
  /\ handleIframeApi Sample.defaults
       (VObj [("action", VStr "configure"); ("payload", More.partial_proto)])
     = ([UpdateConfig (VObj (Sample.defaults ++ [("theme", VStr "dark")])) false],
        Ok tt).
Proof. conjuncts; vm_compute; reflexivity. Qed.

(** C2 on a sample: the bootstrap of a widget whose query string names
    one override. *)
Lemma bootstrap_order_witness :
  let config :=
    VObj (merged Sample.defaults (VObj [("overrides", Sample.overrides)])) in
  outcome (extractConfig Ref.decodeURIComponent Ref.JSON_parse Sample.defaults
             Sample.search_overrides) = Ok config
  /\ outcome (bootstrap_overrides config) = Ok tt
  /\ run (componentDidMount Ref.decodeURIComponent Ref.JSON_parse Sample.defaults
            Sample.search_overrides) [Fulfil; Fulfil]
     = [Called AddMessageListener;
        Called NewBpSocket; Called SetOnMessage; Called SetOnTyping;
        Called SetOnUserIdChanged; Called SocketSetup;
        Called (UpdateConfig config true);
        Called (LoadModuleView (VStr "extensions") true);
        Called SocketWaitForUserId; Resumed SocketWaitForUserId;
        Called InitializeChat; Resumed InitializeChat;
        Called (Observe ConfigUserId); Called (Observe ConfigOverrides);
        Called (Observe DimensionsContainer);
        Called SetLoadingCompleted]
  /\ (forall before after,
         run (componentDidMount Ref.decodeURIComponent Ref.JSON_parse
                Sample.defaults Sample.search_overrides) [Fulfil; Fulfil]
         = before ++ Called SetLoadingCompleted :: after ->
         In (Resumed SocketWaitForUserId) before
         /\ In (Resumed InitializeChat) before
         /\ ~ In (Called SetLoadingCompleted) before
         /\ after = []).
Proof.
  intros config.
  assert (Hc : outcome (extractConfig Ref.decodeURIComponent Ref.JSON_parse
                          Sample.defaults Sample.search_overrides) = Ok config)
    by reflexivity.
  assert (Ho : outcome (bootstrap_overrides config) = Ok tt) by reflexivity.
  destruct (bootstrap_order Ref.decodeURIComponent Ref.JSON_parse Sample.defaults)
    as [Horder Hsafe].
  conjuncts; try assumption.
  - rewrite (Horder Sample.search_overrides config Hc Ho). reflexivity.
  - intros before after H. exact (Hsafe _ _ before after H).
Defined.

(** C3 as stated fails: with no [options] parameter in the query
    string the resolver does not raise. *)
Lemma absent_options_do_not_raise :
  qlookup "options" Sample.search_plain = None
  /\ ~ raises (extractConfig Ref.decodeURIComponent Ref.JSON_parse Sample.defaults
                 Sample.search_plain).
Proof.
  split; [reflexivity|]. intros [e H]. vm_compute in H. discriminate H.
Qed.

(** C3 on samples: no [options], a truncated payload, a well-formed
    payload. *)
Lemma extractConfig_outcomes_witness :
  Ref.decodeURIComponent "{}" = Ok "{}"
  /\ Ref.JSON_parse "{}" = Ok (VObj [])
  /\ NoDup (keys Sample.defaults)
  /\ plain Sample.defaults
  /\ extractConfig Ref.decodeURIComponent Ref.JSON_parse Sample.defaults
       Sample.search_plain
     = ([UpdateConfig (VObj Sample.defaults) true], Ok (VObj Sample.defaults))
  /\ extractConfig Ref.decodeURIComponent Ref.JSON_parse Sample.defaults
       Sample.search_truncated
     = ([], Throw SyntaxError)
  /\ extractConfig Ref.decodeURIComponent Ref.JSON_parse Sample.defaults
       Sample.search_user
     = ([UpdateConfig (VObj (merged Sample.defaults Sample.partial_user)) true],
        Ok (VObj (merged Sample.defaults Sample.partial_user))).
Proof.
  assert (Hd : Ref.decodeURIComponent "{}" = Ok "{}") by reflexivity.
  assert (Hp : Ref.JSON_parse "{}" = Ok (VObj [])) by reflexivity.
  assert (Hk : NoDup (keys Sample.defaults)) by distinct_keys.
  assert (Hplain : plain Sample.defaults) by plain_object.
  conjuncts; try assumption.
  - apply (extractConfig_outcomes Ref.decodeURIComponent Ref.JSON_parse
             Sample.defaults Sample.search_plain Hd Hp Hk);
      [reflexivity | exact Hplain].
  - destruct (extractConfig_outcomes Ref.decodeURIComponent Ref.JSON_parse
                Sample.defaults Sample.search_truncated Hd Hp Hk)
      as (_ & _ & Hparse & _).
    apply (Hparse (String "{" (String (ascii_of_nat 34) "config" ++ String (ascii_of_nat 34) ":"))%string).
    + reflexivity.
    + vm_compute. reflexivity.
    + vm_compute. reflexivity.
  - destruct (extractConfig_outcomes Ref.decodeURIComponent Ref.JSON_parse
                Sample.defaults Sample.search_user Hd Hp Hk)
      as (_ & _ & _ & Hmerged).
    eapply eq_trans.
    + eapply (Hmerged _ (VObj [("config", Sample.partial_user)])).
      * reflexivity.
      * vm_compute. reflexivity.
      * vm_compute. reflexivity.
      * reflexivity.
    + reflexivity.
Defined.

(** C4 on samples: the first assignment of the user id, then a change
    of the user id. *)
Lemma userId_watcher_witness :
  (forall settles,
      run (on_userId {| oldValue := VUndefined; newValue := VStr "u1" |}) settles = [])
  /\ run (on_userId {| oldValue := VStr "u1"; newValue := VStr "u2" |}) [Fulfil; Fulfil]
     = [Called (SocketChangeUserId (VStr "u2"));
        Resumed (SocketChangeUserId (VStr "u2"));
        Called InitializeChat;
        Resumed InitializeChat].
Proof.
  conjuncts.
  - apply (userId_watcher {| oldValue := VUndefined; newValue := VStr "u1" |}).
    reflexivity.
  - apply (userId_watcher {| oldValue := VStr "u1"; newValue := VStr "u2" |}).
    reflexivity.
Defined.



(** C6 as stated fails: an [event] message that has no payload (or a
    [null] one) is not forwarded to the data channel, nor dispatched
    at all: reading the type of its payload throws. *)
Lemma event_without_payload_is_not_forwarded :
  get More.event_without_payload "action" = VStr "event"
  /\ get More.event_without_payload "payload" = VUndefined
  /\ handleIframeApi Sample.defaults More.event_without_payload
     = ([], Throw TypeError)
  /\ handleIframeApi Sample.defaults
       (VObj [("action", VStr "event"); ("payload", VNull)])
     = ([], Throw TypeError).
Proof. repeat split. Qed.

(** C6 on samples: one message of each kind. *)
Lemma handleIframeApi_dispatch_witness :
  let event payload := VObj [("action", VStr "event"); ("payload", payload)] in
  handleIframeApi Sample.defaults
    (VObj [("action", VStr "configure"); ("payload", Sample.partial_user)])
  = ([UpdateConfig (VObj (merged Sample.defaults Sample.partial_user)) false], Ok tt)
  /\ handleIframeApi Sample.defaults (event (VObj [("type", VStr "show")]))
     = ([ShowChat], Ok tt)
  /\ handleIframeApi Sample.defaults (event (VObj [("type", VStr "hide")]))
     = ([HideChat], Ok tt)
  /\ handleIframeApi Sample.defaults
       (event (VObj [("type", VStr "message"); ("text", VStr "hello")]))
     = ([SendMessage (VStr "hello")], Ok tt)
  /\ handleIframeApi Sample.defaults
       (event (VObj [("type", VStr "proactive-trigger"); ("channel", VStr "web")]))
     = ([SendData
           (VObj [("type", VStr "proactive-trigger");
                  ("payload",
                   VObj [("type", VStr "proactive-trigger");
                         ("channel", VStr "web")])])],
        Ok tt)
  /\ handleIframeApi Sample.defaults (event VUndefined) = ([], Throw TypeError)
  /\ handleIframeApi Sample.defaults VNull = ([], Throw TypeError).
Proof.
  intros event. conjuncts.
  - destruct (handleIframeApi_dispatch Sample.defaults
                (VObj [("action", VStr "configure");
                       ("payload", Sample.partial_user)])) as [_ Hlive].
    destruct (Hlive eq_refl) as (Hconfigure & _). exact (Hconfigure eq_refl).
  - destruct (handleIframeApi_dispatch Sample.defaults
                (event (VObj [("type", VStr "show")]))) as [_ Hlive].
    destruct (Hlive eq_refl) as (_ & _ & Hevent).
    destruct (Hevent eq_refl eq_refl) as (Hshow & _). exact (Hshow eq_refl).
  - destruct (handleIframeApi_dispatch Sample.defaults
                (event (VObj [("type", VStr "hide")]))) as [_ Hlive].
    destruct (Hlive eq_refl) as (_ & _ & Hevent).
    destruct (Hevent eq_refl eq_refl) as (_ & Hhide & _). exact (Hhide eq_refl).
  - destruct (handleIframeApi_dispatch Sample.defaults
                (event (VObj [("type", VStr "message"); ("text", VStr "hello")])))
      as [_ Hlive].
    destruct (Hlive eq_refl) as (_ & _ & Hevent).
    destruct (Hevent eq_refl eq_refl) as (_ & _ & Hmessage & _).
    exact (Hmessage eq_refl).
  - destruct (handleIframeApi_dispatch Sample.defaults
                (event (VObj [("type", VStr "proactive-trigger");
                              ("channel", VStr "web")]))) as [_ Hlive].
    destruct (Hlive eq_refl) as (_ & _ & Hevent).
    destruct (Hevent eq_refl eq_refl) as (_ & _ & _ & Hother).
    exact (Hother eq_refl eq_refl eq_refl).
  - destruct (handleIframeApi_dispatch Sample.defaults (event VUndefined))
      as [_ Hlive].
    destruct (Hlive eq_refl) as (_ & Hbare & _). exact (Hbare eq_refl eq_refl).
  - destruct (handleIframeApi_dispatch Sample.defaults VNull) as [Hnull _].
    exact (Hnull eq_refl).
Defined.

(** C7 on a sample: a burst with a cooldown of one second. *)
Lemma unread_once_and_sound_once_per_cooldown_witness :
  document_hasFocus Sample.embedded = Some false
  /\ nullish Sample.text_event = false
  /\ visit Sample.text_event = false
  /\ length (filter is_increment
               (calls (handleNewMessage 1000 Sample.embedded Sample.side initial
                         Sample.text_event))) = 1
  /\ chronological Sample.burst
  /\ spaced 1000 (sound_times (event_loop 1000 Sample.burst start)).
Proof.
  assert (Hsorted : chronological Sample.burst).
  { unfold chronological, Sample.burst.
    repeat (constructor; [|try constructor; simpl; lia]). constructor. }
  destruct (unread_once_and_sound_once_per_cooldown 1000) as [Hunread Hsound].
  conjuncts.
  - reflexivity.
  - reflexivity.
  - reflexivity.
  - apply Hunread; reflexivity.
  - exact Hsorted.
  - apply Hsound. exact Hsorted.
Defined.

(** C8 on a sample: a visit event. *)
Lemma visit_messages_are_ignored_witness :
  handleNewMessage 1000 Sample.embedded Sample.widget initial Sample.visit_event
  = ([], Ok initial).
Proof.
  apply visit_messages_are_ignored. left. reflexivity.
Defined.

(** C9 as stated fails: inside a frame, a pass in which the view is
    not ready computes a class that differs from the class last sent
    (none was) and sends nothing.  Nor is anything sent by the first
    ready render of a window detached from its browsing context,
    whose [window.parent] is [null]. *)
Lemma setClass_not_sent_without_parent_frame :
  (window_parent Sample.detached = false
   /\ isReady Sample.side = true
   /\ last_sent (fst (renders Sample.detached [] initial))
      <> Some (class_of Sample.side)
   /\ fst (render Sample.detached Sample.side
             (snd (renders Sample.detached [] initial))) = [])
  /\ (window_parent Sample.embedded = true
      /\ isReady Sample.loading = false
      /\ last_sent (fst (renders Sample.embedded [] initial))
         <> Some (class_of Sample.loading)
      /\ fst (render Sample.embedded Sample.loading
                (snd (renders Sample.embedded [] initial))) = []).
Proof.
  conjuncts; try reflexivity; discriminate.
Qed.

(** C9 on samples: in a frame, after passes showing the side panel
    twice, a pass for the widget sends its class and a further pass
    for the side panel sends nothing. *)
Lemma setClass_on_change_witness :
  fst (render Sample.embedded Sample.widget
         (snd (renders Sample.embedded [Sample.side; Sample.side] initial)))
  = [setClass "bp-widget-web bp-widget-widget"]
  /\ fst (render Sample.embedded Sample.side
            (snd (renders Sample.embedded [Sample.side; Sample.side] initial)))
     = []
  /\ fst (renders Sample.detached [Sample.side; Sample.widget] initial) = [].
Proof.
  conjuncts.
  - destruct (setClass_on_change Sample.embedded [Sample.side; Sample.side]
                Sample.widget) as (Hframe & _).
    destruct (Hframe eq_refl eq_refl) as [[_ Hsend] _].
    apply Hsend. discriminate.
  - destruct (setClass_on_change Sample.embedded [Sample.side; Sample.side]
                Sample.side) as (Hframe & _).
    destruct (Hframe eq_refl eq_refl) as [_ [_ Hkeep]].
    apply Hkeep. reflexivity.
  - destruct (setClass_on_change Sample.detached [Sample.side; Sample.widget]
                Sample.side) as (_ & _ & Htop).
    apply Htop. reflexivity.
Defined.

(** C10 on a sample: an unknown action, with a store that counts the
    actions it performs. *)
Lemma handleIframeApi_other_action_witness :
  calls (handleIframeApi Sample.defaults (VObj [("action", VStr "ping")])) = []
  /\ fold_left (fun (n : nat) (_ : call) => S n)
       (calls (handleIframeApi Sample.defaults (VObj [("action", VStr "ping")]))) 0
     = 0.
Proof.
  apply (handleIframeApi_other_action Sample.defaults nat
           (fun n _ => S n) (VObj [("action", VStr "ping")]) 0); reflexivity.
Defined.

(** Going back to a class sent earlier sends it again: the comparison
    is with the class last sent, not with every class sent so far. *)
Lemma setClass_sent_again_on_return :
  fst (renders Sample.embedded [Sample.side; Sample.widget; Sample.side] initial)
  = [setClass "bp-widget-web bp-widget-side";
     setClass "bp-widget-web bp-widget-widget";
     setClass "bp-widget-web bp-widget-side"].
Proof. reflexivity. Qed.

(* ================================================================== *)
(** ** The further properties on sample inputs *)
(* ================================================================== *)


(** X3 on samples: [options=null] and [options=5]. *)
Lemma extractConfig_without_config_witness :
  extractConfig Ref.decodeURIComponent Ref.JSON_parse Sample.defaults
    More.search_null
  = ([], Throw TypeError)
  /\ extractConfig Ref.decodeURIComponent Ref.JSON_parse Sample.defaults
       More.search_number
     = ([UpdateConfig (VObj Sample.defaults) true], Ok (VObj Sample.defaults)).
Proof.
  assert (Hk : NoDup (keys Sample.defaults)) by distinct_keys.
  assert (Hplain : plain Sample.defaults) by plain_object.
  split.
  - apply (extractConfig_without_config Ref.decodeURIComponent Ref.JSON_parse
             Sample.defaults More.search_null "null" VNull
             eq_refl eq_refl Hk).
    reflexivity.
  - apply (extractConfig_without_config Ref.decodeURIComponent Ref.JSON_parse
             Sample.defaults More.search_number "5" (VNum 5 0)
             eq_refl eq_refl Hk); [reflexivity | reflexivity | exact Hplain].
Defined.

(** X4 on a sample: a truncated payload. *)
Lemma bootstrap_stops_on_bad_configuration_witness :
  run (componentDidMount Ref.decodeURIComponent Ref.JSON_parse Sample.defaults
         Sample.search_truncated) [Fulfil; Fulfil]
  = [Called AddMessageListener; Called NewBpSocket; Called SetOnMessage;
     Called SetOnTyping; Called SetOnUserIdChanged; Called SocketSetup;
     Uncaught SyntaxError].
Proof.
  apply (bootstrap_stops_on_bad_configuration
           Ref.decodeURIComponent Ref.JSON_parse Sample.defaults
           Sample.search_truncated SyntaxError [Fulfil; Fulfil]).
  reflexivity.
Defined.

(** X5 on a sample: a [null] among the overrides of the query string,
    which also names a user id. *)
Lemma bootstrap_stops_on_bad_override_witness :
  let config :=
    VObj (merged Sample.defaults
            (VObj [("userId", VStr "u1"); ("overrides", More.broken_overrides)])) in
  run (componentDidMount Ref.decodeURIComponent Ref.JSON_parse Sample.defaults
         More.search_broken_overrides) [Fulfil; Fulfil]
  = [Called AddMessageListener; Called NewBpSocket; Called SetOnMessage;
     Called SetOnTyping; Called SetOnUserIdChanged; Called SocketSetup;
     Called (UpdateConfig config true);
     Called (LoadModuleView (VStr "extensions") true);
     Uncaught TypeError].
Proof.
  intros config.
  destruct (bootstrap_stops_on_bad_override
              Ref.decodeURIComponent Ref.JSON_parse Sample.defaults
              More.search_broken_overrides config TypeError [Fulfil; Fulfil]
              eq_refl eq_refl) as [Hrun _].
  rewrite Hrun. reflexivity.
Defined.

(** X6 on a sample: the first promise fulfilled, the second pending;
    then both fulfilled. *)
Lemma bootstrap_waits_witness :
  In (Resumed SocketWaitForUserId)
     (map Called (socket_setup ++ [UpdateConfig (VObj Sample.defaults) true])
        ++ [Called SocketWaitForUserId; Resumed SocketWaitForUserId])
  /\ In (Called SetLoadingCompleted)
        [Called (Observe ConfigOverrides); Called (Observe DimensionsContainer);
         Called SetLoadingCompleted].
Proof.
  split.
  - apply (bootstrap_waits Ref.decodeURIComponent Ref.JSON_parse Sample.defaults
             Sample.search_plain [Fulfil] _ []).
    reflexivity.
  - eapply (bootstrap_waits Ref.decodeURIComponent Ref.JSON_parse Sample.defaults
              Sample.search_plain [Fulfil; Fulfil]
              (map Called (socket_setup ++ [UpdateConfig (VObj Sample.defaults) true])
                 ++ [Called SocketWaitForUserId; Resumed SocketWaitForUserId;
                     Called InitializeChat; Resumed InitializeChat])
              _).
    reflexivity.
Defined.

(** X7 on a sample: two overrides. *)
Lemma loadOverrides_requests_in_order_witness :
  loadOverrides More.two_overrides
  = ([LoadModuleView (VStr "extensions") true; LoadModuleView (VStr "custom") true],
     Ok tt).
Proof.
  apply (loadOverrides_requests_in_order
           [("composer", VObj [("module", VStr "extensions")]);
            ("sidebar", VObj [("module", VStr "custom")])]).
  - distinct_keys.
  - repeat constructor.
Defined.

(** X8 on a sample: a [null] between two overrides. *)
Lemma loadOverrides_stops_at_null_witness :
  loadOverrides More.broken_overrides
  = ([LoadModuleView (VStr "extensions") true], Throw TypeError).
Proof.
  apply (loadOverrides_stops_at_null More.broken_overrides
           [VObj [("module", VStr "extensions")]]
           [VObj [("module", VStr "custom")]] VNull);
    try reflexivity.
  repeat constructor.
Defined.

(** X11 on samples: [null] as an event, then a text message. *)
Lemma handleNewMessage_adds_first_witness :
  handleNewMessage 1000 Sample.embedded Sample.side initial VNull
  = ([], Throw TypeError)
  /\ exists rest st',
       handleNewMessage 1000 Sample.embedded Sample.side initial Sample.text_event
       = (AddEventToConversation Sample.text_event :: rest, Ok st')
       /\ filter is_added rest = [].
Proof.
  split.
  - apply (handleNewMessage_adds_first 1000 Sample.embedded Sample.side initial VNull).
    reflexivity.
  - apply (handleNewMessage_adds_first 1000 Sample.embedded Sample.side initial
             Sample.text_event); reflexivity.
Defined.

(** X12 on samples: the focused side panel, and a browser without
    [document.hasFocus]. *)
Lemma unread_incremented_or_reset_witness :
  handleNewMessage 1000 More.focused Sample.side initial Sample.text_event
  = ([AddEventToConversation Sample.text_event; ResetUnread], Ok initial)
  /\ handleNewMessage 1000 More.old_browser Sample.side initial Sample.text_event
     = ([AddEventToConversation Sample.text_event], Ok initial)
  /\ length (filter is_increment
               (calls (handleNewMessage 1000 More.focused Sample.widget initial
                         Sample.text_event))) = 1.
Proof.
  conjuncts.
  - apply (unread_incremented_or_reset 1000 More.focused Sample.side initial
             Sample.text_event eq_refl eq_refl); reflexivity.
  - apply (unread_incremented_or_reset 1000 More.old_browser Sample.side initial
             Sample.text_event eq_refl eq_refl); reflexivity.
  - apply (unread_incremented_or_reset 1000 More.focused Sample.widget initial
             Sample.text_event eq_refl eq_refl). reflexivity.
Defined.

(** X15 on a sample: the first message of the burst. *)
Lemma unattended_message_sounds_when_quiet_witness :
  exists times,
    sound_times (event_loop 1000 (More.message_at 100 :: Sample.burst) start)
    = 100%N :: times.
Proof.
  apply (unattended_message_sounds_when_quiet 1000 (More.message_at 100)
           Sample.text_event Sample.burst start);
    try reflexivity.
  now split.
Defined.


(** X18 on a sample: a bare [configure] message. *)
Lemma configure_without_payload_resets_witness :
  handleIframeApi Sample.defaults (VObj [("action", VStr "configure")])
  = ([UpdateConfig (VObj Sample.defaults) false], Ok tt).
Proof.
  apply (configure_without_payload_resets Ref.decodeURIComponent Ref.JSON_parse);
    try reflexivity.
  - distinct_keys.
  - plain_object.
Defined.

(** X19 on samples: after a sound at 100 ms, an expiry at 600 ms and
    one at 1100 ms, each followed by a message. *)
Lemma latch_reopens_at_deadline_witness :
  sound_times (event_loop 1000 [More.expiry_at 600; More.message_at 700]
                 More.after_sound) = []
  /\ sound_times (event_loop 1000 [More.expiry_at 1100; More.message_at 1200]
                    More.after_sound) = [1200%N].
Proof.
  split.
  - apply (latch_reopens_at_deadline 1000 (More.expiry_at 600) (More.message_at 700)
             Sample.text_event More.after_sound 1100);
      try reflexivity; try (now split); simpl; lia.
  - apply (latch_reopens_at_deadline 1000 (More.expiry_at 1100) (More.message_at 1200)
             Sample.text_event More.after_sound 1100);
      try reflexivity; try (now split); simpl; lia.
Defined.

(** X20 on a sample: two passes while loading, then the side panel. *)
Lemma first_ready_render_sends_class_witness :
  renders Sample.embedded [Sample.loading; Sample.loading; Sample.side] initial
  = ([setClass "bp-widget-web bp-widget-side"],
     {| played := false; parentClass := Some "bp-widget-web bp-widget-side" |}).
Proof.
  apply (first_ready_render_sends_class Sample.embedded
           [Sample.loading; Sample.loading] Sample.side);
    try reflexivity.
  repeat constructor.
Defined.

(** X21 on samples: the two sample overrides as an object, and
    [undefined]. *)
Lemma _values_in_order_witness :
  _values More.two_overrides
  = ([], Ok [VObj [("module", VStr "extensions")]; VObj [("module", VStr "custom")]])
  /\ _values VUndefined = ([], Throw TypeError).
Proof.
  destruct _values_in_order as (Hobject & _ & Hnull).
  split.
  - apply (Hobject [("composer", VObj [("module", VStr "extensions")]);
                    ("sidebar", VObj [("module", VStr "custom")])]).
    distinct_keys.
  - apply Hnull. reflexivity.
Defined.
